(** * Universal video downloader

    A shallow embedding of the logic of [downloader.py]: the loop of
    [fetch_qualities] that turns the [formats] list of a [yt-dlp -J]
    document into the ordered quality menu, the body of the loop of
    [download_video] that reads one line of the download process's
    output, the tests that open [download_video] and
    [fetch_qualities], the two background threads with
    [update_quality_combo], and the dependency check with its two
    installers.

    Conventions.
    - A descriptor has a [format_id]; its [height] is an int or absent;
      [tbr] and [abr] are numbers or absent.  A key that is absent, or
      present with the value [null], is [None]: [d.get(k)] returns
      [None] in both cases.
    - JSON numbers (ints and finite floats) are rationals [Q]; Python
      compares them by value, and so does [Qcompare].
    - A [dict] is an association list in insertion order: assigning to a
      key that is present keeps its position.
    - A line of output is a list of code points below 256; the classes
      [\d] and white space are the ones Python has on that range.
    - [float] of a decimal literal is the rational the literal denotes;
      Python rounds it to the nearest double.
    - What a function does to the outside (commands, message boxes,
      writes to the status line and the progress bar) is the list of
      its events, in order; the outside answers through a parameter. *)

From Stdlib Require Import List Bool Arith ZArith QArith Lia.
From Stdlib Require Import Ascii String DecimalString DecimalZ.
From Stdlib Require Import Sorted Permutation.
Import ListNotations.

Local Open Scope Z_scope.

(** ** Python helpers *)

(** [x.get(k, 0) or 0] on a numeric field. *)
Definition or0 (x : option Q) : Q :=
  match x with
  | Some q => q
  | None => 0%Q
  end.

(** [a > b] on numbers. *)
Definition Qgtb (a b : Q) : bool :=
  match Qcompare a b with
  | Gt => true
  | _ => false
  end.

(** [str(n)] for an int. *)
Definition str_int (n : Z) : string :=
  NilEmpty.string_of_int (Z.to_int n).

Module Resolver.

(** One element of [formats].  [format_id] is always present in what
    yt-dlp prints; the other fields are read with [.get]. *)
Record fmt := {
  format_id : string;
  vcodec : option string;
  acodec : option string;
  height : option Z;
  tbr : option Q;
  abr : option Q
}.

(** A value of [quality_map]: either the descriptor itself, or the
    five-key dict built for a video-only descriptor (its ['combined']
    key is [True]; a descriptor has no such key). *)
Inductive entry :=
| Single (f : fmt)
| Paired (video_format_id audio_format_id : string) (h : Z) (video_tbr : Q).

Definition dict := list (string * entry).

Fixpoint dict_get (k : string) (m : dict) : option entry :=
  match m with
  | [] => None
  | (k', v) :: m' => if String.eqb k k' then Some v else dict_get k m'
  end.

Definition dict_mem (k : string) (m : dict) : bool :=
  match dict_get k m with
  | Some _ => true
  | None => false
  end.

(** [m[k] = v] *)
Fixpoint dict_set (k : string) (v : entry) (m : dict) : dict :=
  match m with
  | [] => [(k, v)]
  | (k', v') :: m' =>
      if String.eqb k k' then (k, v) :: m' else (k', v') :: dict_set k v m'
  end.

(** [c == 'none'] and [c != 'none'] for [c = fmt.get('vcodec')]. *)
Definition is_none (c : option string) : bool :=
  match c with
  | Some s => String.eqb s "none"
  | None => false
  end.

Definition not_none (c : option string) : bool := negb (is_none c).

(** The three classes of descriptors the loop distinguishes. *)
Definition video_with_audio (f : fmt) : bool :=
  not_none (vcodec f) && not_none (acodec f).

Definition video_only (f : fmt) : bool :=
  not_none (vcodec f) && is_none (acodec f).

Definition audio_only (f : fmt) : bool :=
  not_none (acodec f) && is_none (vcodec f).

(** [if height:] binds the height when it is neither [None] nor [0]. *)
Definition truthy_height (f : fmt) : option Z :=
  match height f with
  | Some h => if h =? 0 then None else Some h
  | None => None
  end.

(** [f"{height}p"] *)
Definition quality_key (h : Z) : string := (str_int h ++ "p")%string.

(** [quality_map.get(quality_key, {}).get('tbr', 0) or 0]: the paired
    dict has no ['tbr'] key. *)
Definition get_tbr (e : option entry) : Q :=
  match e with
  | Some (Single f) => or0 (tbr f)
  | Some (Paired _ _ _ _) => 0%Q
  | None => 0%Q
  end.

(** [quality_map.get(quality_key, {}).get('video_tbr', 0) or 0]: a
    descriptor has no ['video_tbr'] key. *)
Definition get_video_tbr (e : option entry) : Q :=
  match e with
  | Some (Single _) => 0%Q
  | Some (Paired _ _ _ t) => t
  | None => 0%Q
  end.

(** One turn of the inner loop over [formats] that looks for the best
    audio descriptor. *)
Definition best_audio_step (best_audio : option fmt) (audio_fmt : fmt)
  : option fmt :=
  if audio_only audio_fmt then
    let current_abr := or0 (abr audio_fmt) in
    let best_abr :=
      match best_audio with
      | Some b => or0 (abr b)
      | None => 0%Q
      end in
    match best_audio with
    | None => Some audio_fmt
    | Some _ => if Qgtb current_abr best_abr then Some audio_fmt else best_audio
    end
  else best_audio.

Definition find_best_audio (formats : list fmt) : option fmt :=
  fold_left best_audio_step formats None.

(** One turn of [for fmt in formats]. *)
Definition process_format (formats : list fmt) (quality_map : dict) (f : fmt)
  : dict :=
  if video_with_audio f then
    match truthy_height f with
    | Some h =>
        let key := quality_key h in
        let current_tbr := or0 (tbr f) in
        let existing_tbr := get_tbr (dict_get key quality_map) in
        if negb (dict_mem key quality_map) || Qgtb current_tbr existing_tbr
        then dict_set key (Single f) quality_map
        else quality_map
    | None => quality_map
    end
  else if video_only f then
    match truthy_height f with
    | Some h =>
        let key := quality_key h in
        match find_best_audio formats with
        | Some best_audio =>
            let current_video_tbr := or0 (tbr f) in
            let existing_video_tbr :=
              get_video_tbr (dict_get key quality_map) in
            if negb (dict_mem key quality_map)
               || Qgtb current_video_tbr existing_video_tbr
            then dict_set key
                   (Paired (format_id f) (format_id best_audio) h
                      current_video_tbr)
                   quality_map
            else quality_map
        | None => quality_map
        end
    | None => quality_map
    end
  else quality_map.

(** [quality_map] after the loop has consumed [done], a prefix of
    [formats]. *)
Definition quality_map_after (formats done : list fmt) : dict :=
  fold_left (process_format formats) done [].

Definition build_quality_map (formats : list fmt) : dict :=
  quality_map_after formats formats.

(** [x[1].get('height', 0) or 0], the sort key. *)
Definition entry_height (e : entry) : Z :=
  match e with
  | Single f =>
      match height f with
      | Some h => h
      | None => 0
      end
  | Paired _ _ h _ => h
  end.

(** [sorted(items, key=..., reverse=True)]: the stable sort by descending
    key.  An item goes in front of the first item whose key is not
    larger than its own, so items with equal keys keep their order. *)
Fixpoint insert_desc (x : string * entry) (l : dict) : dict :=
  match l with
  | [] => [x]
  | y :: l' =>
      if entry_height (snd x) <? entry_height (snd y)
      then y :: insert_desc x l'
      else x :: l
  end.

Fixpoint sorted_desc (l : dict) : dict :=
  match l with
  | [] => []
  | x :: l' => insert_desc x (sorted_desc l')
  end.

(** [self.formats_data] at the end of [fetch_thread]; the spec calls the
    function [resolve]. *)
Definition fetch_qualities (formats : list fmt) : dict :=
  sorted_desc (build_quality_map formats).

(** The labels handed to [update_quality_combo]. *)
Definition labels (formats : list fmt) : list string :=
  map fst (fetch_qualities formats).

(** The spec's [FormatSelection] of a stored value. *)
Inductive FormatSelection :=
| SelSingle (format_id : string)
| SelPaired (video_format_id audio_format_id : string).

Definition selection (e : entry) : FormatSelection :=
  match e with
  | Single f => SelSingle (format_id f)
  | Paired v a _ _ => SelPaired v a
  end.

(** The spec's [QualityOption]s: each label with its selection. *)
Definition options (formats : list fmt) : list (string * FormatSelection) :=
  map (fun x => (fst x, selection (snd x))) (fetch_qualities formats).

(** [format_selector] of [download_video]: [format_info.get('combined')]
    is truthy exactly for the paired dict. *)
Definition format_selector (format_info : entry) : string :=
  match format_info with
  | Paired v a _ _ => (v ++ "+" ++ a)%string
  | Single f => format_id f
  end.

End Resolver.

Module Progress.

(** A line of the process's output. *)
Definition text := list ascii.

Definition lit (s : string) : text := list_ascii_of_string s.

(** [str.isspace] on code points below 256: TAB..CR, FS..US, space,
    NEL and NBSP. *)
Definition is_space (c : ascii) : bool :=
  let n := nat_of_ascii c in
  ((9 <=? n) && (n <=? 13) || (28 <=? n) && (n <=? 32)
   || (n =? 133) || (n =? 160))%nat.

(** [\d] on code points below 256. *)
Definition is_digit (c : ascii) : bool :=
  let n := nat_of_ascii c in
  ((48 <=? n) && (n <=? 57))%nat.

Definition is_char (a c : ascii) : bool := Ascii.eqb a c.

Fixpoint lstrip (s : text) : text :=
  match s with
  | [] => []
  | c :: s' => if is_space c then lstrip s' else s
  end.

Definition rstrip (s : text) : text := rev (lstrip (rev s)).

(** [line.strip()] *)
Definition strip (s : text) : text := rstrip (lstrip s).

Fixpoint starts_with (p s : text) : bool :=
  match p, s with
  | [], _ => true
  | _ :: _, [] => false
  | a :: p', b :: s' => Ascii.eqb a b && starts_with p' s'
  end.

(** [needle in hay] *)
Fixpoint contains (needle hay : text) : bool :=
  starts_with needle hay
  || match hay with
     | [] => false
     | _ :: hay' => contains needle hay'
     end.

(** *** A backtracking matcher for sequences of quantified character
    classes, which is the fragment of [re] that the pattern of
    [download_video] lives in (a group of [\d+], [\.?] and [\d*],
    then [%]).  All quantifiers are greedy: the longest
    repetition is tried first and shortened when the rest of the
    pattern fails. *)
Inductive quant := One | Opt | Star | Plus.

Record item := { cls : ascii -> bool; rep : quant }.

(** [star p k s] matches [p*] at [s] followed by the continuation [k];
    it returns the text taken by the repetition with what [k]
    returned. *)
Fixpoint star (p : ascii -> bool) (k : text -> option (list text)) (s : text)
  : option (text * list text) :=
  match s with
  | c :: s' =>
      if p c then
        match star p k s' with
        | Some (m, r) => Some (c :: m, r)
        | None => option_map (pair []) (k s)
        end
      else option_map (pair []) (k s)
  | [] => option_map (pair []) (k s)
  end.

(** [match_here its s] matches the items at the start of [s] and returns
    the text each item took. *)
Fixpoint match_here (its : list item) (s : text) {struct its}
  : option (list text) :=
  match its with
  | [] => Some []
  | it :: its' =>
      let k := match_here its' in
      match rep it with
      | One =>
          match s with
          | c :: s' => if cls it c then option_map (cons [c]) (k s') else None
          | [] => None
          end
      | Opt =>
          match s with
          | c :: s' =>
              if cls it c then
                match k s' with
                | Some r => Some ([c] :: r)
                | None => option_map (cons []) (k s)
                end
              else option_map (cons []) (k s)
          | [] => option_map (cons []) (k s)
          end
      | Star => option_map (fun mr => fst mr :: snd mr) (star (cls it) k s)
      | Plus =>
          match s with
          | c :: s' =>
              if cls it c
              then option_map (fun mr => (c :: fst mr) :: snd mr)
                     (star (cls it) k s')
              else None
          | [] => None
          end
      end
  end.

(** [re.search]: the match at the leftmost position that has one. *)
Fixpoint search (its : list item) (s : text) : option (list text) :=
  match match_here its s with
  | Some r => Some r
  | None =>
      match s with
      | [] => None
      | _ :: s' => search its s'
      end
  end.

(** The pattern given to [re.search]: [\d+], [\.?], [\d*] in a
    group, then [%]. *)
Definition percent_re : list item :=
  [ {| cls := is_digit; rep := Plus |};
    {| cls := is_char "."; rep := Opt |};
    {| cls := is_digit; rep := Star |};
    {| cls := is_char "%"; rep := One |} ].

(** [percent_match.group(1)]: the text of the first three items. *)
Definition group1 (m : list text) : text := List.concat (firstn 3 m).

Definition digit_val (c : ascii) : Z := Z.of_nat (nat_of_ascii c) - 48.

Definition digits_val (ds : text) : Z :=
  fold_left (fun acc c => 10 * acc + digit_val c) ds 0.

Fixpoint span_digits (s : text) : text * text :=
  match s with
  | c :: s' =>
      if is_digit c
      then let (ds, r) := span_digits s' in (c :: ds, r)
      else ([], s)
  | [] => ([], [])
  end.

(** [float(s)] on unsigned decimal literals: one or more digits, then
    optionally a point and zero or more digits.  The value is the
    decimal the literal denotes, which Python rounds to the nearest
    double.  Other texts are [None] here; [float] is only ever applied
    to [group1] of a match, which is such a literal. *)
Definition float (s : text) : option Q :=
  match span_digits s with
  | ([], _) => None
  | (ds, []) => Some (digits_val ds # 1)
  | (ds, c :: fs) =>
      if is_char "." c && forallb is_digit fs
      then Some (digits_val (ds ++ fs)
                 # Z.to_pos (10 ^ Z.of_nat (List.length fs)))
      else None
  end.

Inductive phase := Downloading | Merging.

(** What one line tells: [percent] is set on a download-progress line
    and left out on a merge line. *)
Record DownloadProgress := {
  percent : option Q;
  stage : phase
}.

Definition download_marker : text := lit "[download]".
Definition merge_marker : text := lit "Merging formats".

(** The body of [for line in process.stdout]. *)
Definition extract (line : text) : option DownloadProgress :=
  let line := strip line in
  if contains download_marker line && contains (lit "%") line then
    match search percent_re line with
    | Some percent_match =>
        match float (group1 percent_match) with
        | Some p => Some {| percent := Some p; stage := Downloading |}
        | None => None
        end
    | None => None
    end
  else if contains merge_marker line then
    Some {| percent := None; stage := Merging |}
  else None.

(** The two variables the loop writes through [root.after]. *)
Inductive status :=
| StartingDownload
| DownloadingAt (p : Q)
| MergingVideoAndAudio.

Record display := {
  progress_var : Q;
  status_var : status
}.

Definition on_line (d : display) (line : text) : display :=
  match extract line with
  | Some {| percent := Some p; stage := Downloading |} =>
      {| progress_var := p; status_var := DownloadingAt p |}
  | Some {| percent := _; stage := Merging |} =>
      {| progress_var := progress_var d; status_var := MergingVideoAndAudio |}
  | _ => d
  end.

End Progress.

Module App.

(** [threading.Thread]: all the guard asks is [is_alive()]. *)
Record thread := { is_alive : bool }.

(** The fields of the application object. *)
Record app := {
  url_var : string;
  quality_var : string;
  shown : Progress.display;
  formats_data : Resolver.dict;
  download_thread : option thread
}.

Inductive effect :=
| ShowWarning (title message : string)
| ShowInfo (title message : string)
| ThreadStart.

(** [not s] on a string. *)
Definition empty (s : string) : bool :=
  match s with
  | EmptyString => true
  | String _ _ => false
  end.

(** [self.download_thread and self.download_thread.is_alive()] *)
Definition download_active (a : app) : bool :=
  match download_thread a with
  | Some t => is_alive t
  | None => false
  end.

(** [download_video], up to [self.download_thread.start()]: the state
    it leaves and what it did.  The body of the thread runs on its
    own. *)
Definition download_video (a : app) : app * list effect :=
  if empty (quality_var a) || empty (url_var a) then
    (a, [ShowWarning "Warning" "Please select a quality and enter URL!"])
  else if download_active a then
    (a, [ShowInfo "Info" "Download already in progress!"])
  else
    ({| url_var := url_var a;
        quality_var := quality_var a;
        shown := shown a;
        formats_data := formats_data a;
        download_thread := Some {| is_alive := true |} |},
     [ThreadStart]).

End App.

Module Installer.

Local Open Scope string_scope.

(** What [subprocess.run(..., check=True)] and [subprocess.check_call]
    raise: [CalledProcessError] on a non-zero exit status,
    [FileNotFoundError] when the program is missing, or something else
    (say [PermissionError]).  The payload is [str(e)]. *)
Inductive exn :=
| CalledProcessError (text : string)
| FileNotFoundError (text : string)
| OtherException (text : string).

(** [str(e)] *)
Definition str (e : exn) : string :=
  match e with
  | CalledProcessError t => t
  | FileNotFoundError t => t
  | OtherException t => t
  end.

(** What the functions do, in order. *)
Inductive event :=
| run (cmd : list string)
| status_set (text : string)
| showinfo (title message : string)
| showwarning (title message : string)
| showerror (title message : string).

(** How the machine answers a command: [None] is exit status 0. *)
Definition machine := list string -> option exn.

(** A Python statement: the events so far, and an exception or a
    value. *)
Definition M (A : Type) : Type := (list event * (exn + A))%type.

Definition ret {A : Type} (a : A) : M A := ([], inr a).

Definition bind {A B : Type} (m : M A) (k : A -> M B) : M B :=
  match m with
  | (t, inl e) => (t, inl e)
  | (t, inr a) => ((t ++ fst (k a))%list, snd (k a))
  end.

Notation "m >> k" := (bind m (fun _ => k))
  (at level 61, left associativity).

Definition emit (ev : event) : M unit := ([ev], inr tt).

(** [subprocess.run(cmd, capture_output=True, check=True)] and
    [subprocess.check_call(cmd)] *)
Definition check_call (w : machine) (cmd : list string) : M unit :=
  ([run cmd],
   match w cmd with
   | Some e => inl e
   | None => inr tt
   end).

(** [try: m except ...: h]; the handler is [None] on the exceptions
    that the [except] clause does not name. *)
Definition try_except {A : Type} (m : M A) (h : exn -> option (M A)) : M A :=
  match m with
  | (t, inl e) =>
      match h e with
      | Some k => ((t ++ fst k)%list, snd k)
      | None => (t, inl e)
      end
  | (t, inr a) => (t, inr a)
  end.

(** [except subprocess.CalledProcessError:] *)
Definition on_called_process_error {A : Type} (k : M A) (e : exn)
  : option (M A) :=
  match e with
  | CalledProcessError _ => Some k
  | _ => None
  end.

(** [except (subprocess.CalledProcessError, FileNotFoundError):] *)
Definition on_failed_or_missing {A : Type} (k : M A) (e : exn)
  : option (M A) :=
  match e with
  | CalledProcessError _ => Some k
  | FileNotFoundError _ => Some k
  | OtherException _ => None
  end.

(** The newline of the messages. *)
Definition nl : string := String "010" EmptyString.

Definition pip_install_ytdlp (executable : string) : list string :=
  [executable; "-m"; "pip"; "install"; "--upgrade"; "yt-dlp"].

Definition pip_install_ffmpeg (executable : string) : list string :=
  [executable; "-m"; "pip"; "install"; "ffmpeg-python"].

Definition brew_version : list string := ["brew"; "--version"].
Definition brew_install : list string := ["brew"; "install"; "ffmpeg"].
Definition apt_update : list string := ["sudo"; "apt"; "update"].
Definition apt_install : list string :=
  ["sudo"; "apt"; "install"; "-y"; "ffmpeg"].
Definition yum_install : list string :=
  ["sudo"; "yum"; "install"; "-y"; "ffmpeg"].
Definition pacman_install : list string :=
  ["sudo"; "pacman"; "-S"; "--noconfirm"; "ffmpeg"].
Definition ytdlp_version : list string := ["yt-dlp"; "--version"].
Definition ffmpeg_version : list string := ["ffmpeg"; "-version"].

(** [install_ytdlp]; [executable] is [sys.executable]. *)
Definition install_ytdlp (w : machine) (executable : string) : M unit :=
  try_except
    (emit (status_set "Installing yt-dlp...")
     >> check_call w (pip_install_ytdlp executable)
     >> emit (showinfo "Success" "yt-dlp installed successfully!"))
    (on_called_process_error
       (emit (showerror "Error"
                ("Failed to install yt-dlp. Please install manually:"
                 ++ nl ++ "pip install yt-dlp")))).

(** [install_ffmpeg]; [platform] is [sys.platform]. *)
Definition install_ffmpeg (w : machine) (platform executable : string)
  : M unit :=
  emit (status_set "Installing FFmpeg...")
  >> try_except
       (if String.eqb platform "win32" then
          check_call w (pip_install_ffmpeg executable)
          >> emit (showinfo "Success" "FFmpeg installed successfully!")
        else if String.eqb platform "darwin" then
          try_except
            (check_call w brew_version
             >> check_call w brew_install
             >> emit (showinfo "Success"
                        "FFmpeg installed successfully via Homebrew!"))
            (on_failed_or_missing
               (emit (showwarning "Homebrew Not Found"
                        ("Homebrew is needed to install FFmpeg on macOS."
                         ++ nl
                         ++ "Please install Homebrew first: https://brew.sh/"))))
        else if String.prefix "linux" platform then
          try_except
            (check_call w apt_update
             >> check_call w apt_install
             >> emit (showinfo "Success"
                        "FFmpeg installed successfully via apt!"))
            (on_called_process_error
               (try_except
                  (check_call w yum_install
                   >> emit (showinfo "Success"
                              "FFmpeg installed successfully via yum!"))
                  (on_called_process_error
                     (try_except
                        (check_call w pacman_install
                         >> emit (showinfo "Success"
                                    "FFmpeg installed successfully via pacman!"))
                        (on_called_process_error
                           (emit (showwarning "Installation Failed"
                                    ("Failed to install FFmpeg automatically."
                                     ++ nl
                                     ++ "Please install FFmpeg manually for your Linux distribution."))))))))
        else
          emit (showwarning "Unsupported Platform"
                  ("Automatic FFmpeg installation not supported on this platform."
                   ++ nl
                   ++ "Please install FFmpeg manually: https://ffmpeg.org/")))
       (fun e =>
          Some (emit (showwarning "FFmpeg Installation"
                        ("Could not install FFmpeg automatically: " ++ str e
                         ++ "." ++ nl
                         ++ "Please install FFmpeg manually: https://ffmpeg.org/")))).

(** [check_dependencies] *)
Definition check_dependencies (w : machine) (platform executable : string)
  : M unit :=
  try_except (check_call w ytdlp_version)
    (on_failed_or_missing (install_ytdlp w executable))
  >> try_except (check_call w ffmpeg_version)
       (on_failed_or_missing (install_ffmpeg w platform executable)).

Definition is_dialog (ev : event) : bool :=
  match ev with
  | showinfo _ _ => true
  | showwarning _ _ => true
  | showerror _ _ => true
  | _ => false
  end.

(** The command exits with status 0. *)
Definition exits_0 (w : machine) (cmd : list string) : Prop := w cmd = None.

(** The answers that the two-exception [except] clauses catch. *)
Definition failed_or_missing (answer : option exn) : bool :=
  match answer with
  | Some (CalledProcessError _) => true
  | Some (FileNotFoundError _) => true
  | _ => false
  end.

(** The answers that [except subprocess.CalledProcessError] catches. *)
Definition failed (answer : option exn) : bool :=
  match answer with
  | Some (CalledProcessError _) => true
  | _ => false
  end.

(** Whether [check_dependencies] lets an exception escape, read off the
    answers to the two version checks and to the [pip] command. *)
Definition escapes (w : machine) (executable : string) : bool :=
  let ffmpeg_check :=
    match w ffmpeg_version with
    | Some (OtherException _) => true
    | _ => false
    end in
  match w ytdlp_version with
  | Some (OtherException _) => true
  | Some _ =>
      match w (pip_install_ytdlp executable) with
      | Some (CalledProcessError _) => ffmpeg_check
      | Some _ => true
      | None => ffmpeg_check
      end
  | None => ffmpeg_check
  end.

(** The commands of a trace, in order. *)
Fixpoint commands (t : list event) : list (list string) :=
  match t with
  | [] => []
  | run cmd :: t' => cmd :: commands t'
  | _ :: t' => commands t'
  end.

End Installer.

Module Session.

Import Resolver Progress App.

Local Open Scope string_scope.

(** The application object with the two widgets whose state the
    handlers change. *)
Record window := {
  core : app;
  combo_values : list string;   (* [quality_combo['values']] *)
  download_btn : bool           (* [state == 'normal'] *)
}.

(** The texts given to [status_var.set]. *)
Inductive status_text :=
| FetchingQualities        (* Fetching available qualities... *)
| Found (n : nat) (title50 : string)
                           (* Found n qualities for: title50... *)
| NoQualitiesFound         (* No qualities found *)
| ErrorFetchingQualities   (* Error fetching qualities *)
| ErrorParsingData         (* Error parsing data *)
| ErrorOccurred            (* Error occurred *)
| Starting                 (* Starting download... *)
| DownloadingNow           (* Downloading... p%, with the [percent]
                              that the thread holds when the text is
                              built *)
| MergingNow               (* Merging video and audio... *)
| Completed                (* Download completed successfully! *)
| DownloadFailed           (* Download failed *)
| DownloadErrorStatus.     (* Download error *)

(** What [except Exception as e] of [download_thread] catches. *)
Inductive failure :=
| KeyError (key : string)
| Raised (text : string).

(** The texts of the message boxes. *)
Inductive message :=
| PleaseEnterUrl           (* Please enter a video URL! *)
| PleaseEnterValidUrl      (* Please enter a valid URL (starting with
                              http:// or https://) *)
| NoCompatibleQualities    (* No compatible video qualities found! *)
| FetchError (error_msg : string)      (* Error: error_msg *)
| ParseFailed              (* Failed to parse video information *)
| UnexpectedError (text : string)      (* Unexpected error: text *)
| DownloadedTo             (* Video downloaded successfully! Saved
                              to: the folder *)
| DownloadFailedTryAgain   (* Download failed. Please try again. *)
| DownloadError (e : failure).         (* Download error: str(e) *)

(** What a function does, in order.  A call made through [root.after]
    is recorded where it is handed over; what the callback shows when
    the main loop runs it is not part of the model. *)
Inductive event :=
| status_set (s : status_text)
| progress_set (p : Q)
| button_state (normal : bool)
| showinfo (m : message)
| showwarning (m : message)
| showerror (m : message)
| popen (cmd : list string).

Definition char (c : ascii) : item := {| cls := is_char c; rep := One |}.

(** The pattern of the URL test: [^https?://] given to [re.match]. *)
Definition http_re : list item :=
  [ char "h"; char "t"; char "t"; char "p";
    {| cls := is_char "s"; rep := Opt |};
    char ":"; char "/"; char "/" ].

Inductive fetch_start :=
| FetchRejected (m : message)
| FetchStarted (url : text).

(** The method [fetch_qualities], up to the start of [fetch_thread]. *)
Definition fetch_qualities_start (w : window) : fetch_start :=
  let url := strip (lit (url_var (core w))) in
  match url with
  | [] => FetchRejected PleaseEnterUrl
  | _ :: _ =>
      match match_here http_re url with
      | None => FetchRejected PleaseEnterValidUrl
      | Some _ => FetchStarted url
      end
  end.

Definition set_quality_var (a : app) (q : string) : app :=
  {| url_var := url_var a;
     quality_var := q;
     shown := shown a;
     formats_data := formats_data a;
     download_thread := download_thread a |}.

Definition set_formats_data (a : app) (d : dict) : app :=
  {| url_var := url_var a;
     quality_var := quality_var a;
     shown := shown a;
     formats_data := d;
     download_thread := download_thread a |}.

(** [update_quality_combo] *)
Definition update_quality_combo (w : window) (qualities : list string)
  (title : string) : window * list event :=
  match qualities with
  | q0 :: _ =>
      ({| core := set_quality_var (core w) q0;
          combo_values := qualities;
          download_btn := true |},
       [status_set (Found (List.length qualities) (substring 0 50 title))])
  | [] =>
      (w, [showwarning NoCompatibleQualities; status_set NoQualitiesFound])
  end.

(** How the metadata query ends: with the [title] and [formats] read
    from the document, or with one of the exceptions [fetch_thread]
    names. *)
Inductive fetched :=
| Document (title : string) (formats : list fmt)
| CalledProcessError (stderr : option string)
| JSONDecodeError
| OtherException (text : string).

(** [e.stderr or "Failed to fetch video information"] *)
Definition error_msg (stderr : option string) : string :=
  match stderr with
  | Some (String c s) => String c s
  | _ => "Failed to fetch video information"
  end.

(** [fetch_thread], with the call of [update_quality_combo] that it
    hands to the main loop. *)
Definition fetch_thread (w : window) (r : fetched) : window * list event :=
  let start := [status_set FetchingQualities; progress_set 0%Q] in
  match r with
  | Document title formats =>
      let data := fetch_qualities formats in
      let w1 :=
        {| core := set_formats_data (core w) data;
           combo_values := combo_values w;
           download_btn := download_btn w |} in
      (fst (update_quality_combo w1 (map fst data) title),
       (start ++ snd (update_quality_combo w1 (map fst data) title))%list)
  | CalledProcessError stderr =>
      (w, (start ++ [showerror (FetchError (error_msg stderr));
                     status_set ErrorFetchingQualities])%list)
  | JSONDecodeError =>
      (w, (start ++ [showerror ParseFailed; status_set ErrorParsingData])%list)
  | OtherException text =>
      (w, (start ++ [showerror (UnexpectedError text);
                     status_set ErrorOccurred])%list)
  end.

(** How the download process ends: with an exit status after its
    lines, or with an exception raised by [Popen] or while the lines
    are read. *)
Inductive process :=
| Exits (lines : list text) (returncode : Z)
| Raises (lines : list text) (text : string).

(** What the loop of [download_thread] hands over for one line. *)
Definition line_events (line : text) : list event :=
  match extract line with
  | Some {| percent := Some p; stage := Downloading |} =>
      [progress_set p; status_set DownloadingNow]
  | Some {| percent := _; stage := Merging |} => [status_set MergingNow]
  | _ => []
  end.

(** [cmd] of [download_thread]; [output_path] is
    [str(self.videos_folder / "%(title)s.%(ext)s")]. *)
Definition download_cmd (output_path format_selector url : string)
  : list string :=
  ["yt-dlp"; "-f"; format_selector; "--merge-output-format"; "mp4";
   "-o"; output_path; url].

(** [download_thread], on the state [a] it finds when it starts. *)
Definition download_thread_body (output_path : string) (a : app)
  (p : process) : list event :=
  ([button_state false; status_set Starting; progress_set 0%Q]
   ++ match dict_get (quality_var a) (formats_data a) with
      | None =>
          [showerror (DownloadError (KeyError (quality_var a)));
           status_set DownloadErrorStatus]
      | Some format_info =>
          popen (download_cmd output_path (format_selector format_info)
                   (string_of_list_ascii (strip (lit (url_var a)))))
          :: match p with
             | Exits lines returncode =>
                 flat_map line_events lines
                 ++ (if Z.eqb returncode 0
                     then [progress_set 100%Q; status_set Completed;
                           showinfo DownloadedTo]
                     else [status_set DownloadFailed;
                           showerror DownloadFailedTryAgain])
             | Raises lines text =>
                 flat_map line_events lines
                 ++ [showerror (DownloadError (Raised text));
                     status_set DownloadErrorStatus]
             end
      end
   ++ [button_state true])%list.

(** The value of the last [progress_var.set] of a trace. *)
Definition last_progress (t : list event) : option Q :=
  fold_left (fun acc ev =>
               match ev with
               | progress_set p => Some p
               | _ => acc
               end) t None.

Definition is_button (ev : event) : bool :=
  match ev with
  | button_state _ => true
  | _ => false
  end.

End Session.

(** * Vocabulary of the statements *)

Import Resolver Progress App.

Local Open Scope string_scope.
Local Open Scope list_scope.

Arguments is_char a c : simpl never.
Arguments is_digit c : simpl never.
Arguments is_space c : simpl never.

(** ** Resolver *)

(** A stored value was built from a descriptor of [formats]: a combined
    one for [Single], a video-only one and the best audio descriptor for
    [Paired]. *)
Definition from_formats (formats : list fmt) (e : entry) : Prop :=
  match e with
  | Single f =>
      In f formats /\ video_with_audio f = true
      /\ truthy_height f = Some (entry_height e)
  | Paired v a h t =>
      exists f b,
        In f formats /\ video_only f = true /\ truthy_height f = Some h
        /\ find_best_audio formats = Some b
        /\ v = format_id f /\ a = format_id b /\ t = or0 (tbr f)
  end.

(** Keys are unique, every key is the label of its value's height, and
    every value comes from [formats]. *)
Definition well_formed (formats : list fmt) (m : dict) : Prop :=
  NoDup (map fst m)
  /\ forall k e, In (k, e) m ->
       k = quality_key (entry_height e) /\ from_formats formats e.

(** What the inner loop has found after the descriptors [seen]. *)
Definition best_so_far (seen : list fmt) (best : option fmt) : Prop :=
  match best with
  | None => forall f, In f seen -> audio_only f = false
  | Some a =>
      In a seen /\ audio_only a = true
      /\ forall b, In b seen -> audio_only b = true ->
           (or0 (abr b) <= or0 (abr a))%Q
  end.

(** The order of the sorted menu: [y] may follow [x]. *)
Definition desc (x y : string * entry) : Prop :=
  entry_height (snd y) <= entry_height (snd x).

(** Example descriptors. *)

Definition combined_1080 : fmt :=
  {| format_id := "37"; vcodec := Some "avc1"; acodec := Some "mp4a";
     height := Some 1080; tbr := Some (5000 # 1); abr := None |}.

Definition video_1080 : fmt :=
  {| format_id := "137"; vcodec := Some "avc1"; acodec := Some "none";
     height := Some 1080; tbr := Some (8000 # 1); abr := None |}.

Definition audio_128 : fmt :=
  {| format_id := "140"; vcodec := Some "none"; acodec := Some "mp4a";
     height := None; tbr := Some (128 # 1); abr := Some (128 # 1) |}.

Definition combined_720 : fmt :=
  {| format_id := "22"; vcodec := Some "avc1"; acodec := Some "mp4a";
     height := Some 720; tbr := Some (2000 # 1); abr := None |}.

(** The heights of the menu, in the order of the menu. *)
Definition heights (formats : list fmt) : list Z :=
  map (fun x => entry_height (snd x)) (fetch_qualities formats).

(** The descriptor [f] of [formats] is one the loop stores under the
    label of height [h]: it has a usable height and is either combined,
    or video-only in a list that has an audio-only descriptor. *)
Definition yields (formats : list fmt) (f : fmt) (h : Z) : Prop :=
  In f formats /\ truthy_height f = Some h
  /\ (video_with_audio f = true
      \/ (video_only f = true
          /\ exists a, In a formats /\ audio_only a = true)).

(** One turn of a loop that keeps, under each label, the value built
    from the descriptor of class [cls] with the largest [tbr]; [get]
    reads the bitrate of a stored value and [mk] builds the value. *)
Definition keep_max (cls : fmt -> bool) (get : option entry -> Q)
  (mk : fmt -> Z -> entry) (quality_map : dict) (f : fmt) : dict :=
  if cls f then
    match truthy_height f with
    | Some h =>
        let key := quality_key h in
        if negb (dict_mem key quality_map)
           || Qgtb (or0 (tbr f)) (get (dict_get key quality_map))
        then dict_set key (mk f h) quality_map
        else quality_map
    | None => quality_map
    end
  else quality_map.

(** [quality_map] holds, for the descriptors [seen] of class [cls], one
    value per height, built from a descriptor of largest [tbr] at that
    height. *)
Definition holds_best (cls : fmt -> bool) (mk : fmt -> Z -> entry)
  (seen : list fmt) (m : dict) : Prop :=
  NoDup (map fst m)
  /\ (forall k e, In (k, e) m ->
        exists f h,
          In f seen /\ cls f = true /\ truthy_height f = Some h
          /\ k = quality_key h /\ e = mk f h
          /\ forall g, In g seen -> cls g = true ->
               truthy_height g = Some h ->
               (or0 (tbr g) <= or0 (tbr f))%Q)
  /\ (forall g h, In g seen -> cls g = true -> truthy_height g = Some h ->
        In (quality_key h) (map fst m)).

(** ** Extractor *)

(** A numeric value in the sense of the spec: one or more digits, then
    optionally a point and digits (the point may end the value, as in
    the pattern). *)
Definition is_numeric (n : text) : bool :=
  match span_digits n with
  | ([], _) => false
  | (_, []) => true
  | (_, c :: fs) => is_char "." c && forallb is_digit fs
  end.

(** The numeric value [n], followed by a percent sign, stands in [line]
    right after [pre]. *)
Definition percent_at (line pre n : text) : Prop :=
  is_numeric n = true /\ exists post, line = pre ++ n ++ lit "%" ++ post.

(** The downloading rule of the spec: the download marker and a numeric
    value followed by a percent sign. *)
Definition downloading_rule (line : text) : Prop :=
  contains download_marker line = true /\ exists pre n, percent_at line pre n.

(** A run of white space. *)
Definition spaces (s : text) : Prop := Forall (fun c => is_space c = true) s.

(** A text that neither starts nor ends with white space. *)
Definition solid (w : text) : Prop :=
  exists c w' d, w = c :: w' /\ w = removelast w ++ [d]
                 /\ is_space c = false /\ is_space d = false.

(** The text before a repetition's follow-up does not go on with a
    character of the class. *)
Definition stops (p : ascii -> bool) (rest : text) : Prop :=
  match rest with
  | [] => True
  | c :: _ => p c = false
  end.

(** What one item may take. *)
Definition accepts (it : item) (m : text) : Prop :=
  forallb (cls it) m = true
  /\ match rep it with
     | One => List.length m = 1%nat
     | Opt => (List.length m <= 1)%nat
     | Star => True
     | Plus => (1 <= List.length m)%nat
     end.

(** Example lines. *)

Definition progress_line : text := lit "[download]  45.3% of 10MiB".
Definition overfull_line : text := lit "[download] 250% of 10MiB".
Definition merger_line : text := lit "[Merger] Merging formats into a.mp4".
Definition stuck_line : text := lit "[download] Merging formats %".

(** ** Application *)

(** Example states: a download is running, with and without a URL in
    the entry field. *)

Definition busy : app :=
  {| url_var := "https://example.org/v";
     quality_var := "1080p";
     shown := {| progress_var := 45.3%Q; status_var := DownloadingAt 45.3%Q |};
     formats_data := [("1080p", Single combined_1080)];
     download_thread := Some {| is_alive := true |} |}.

Definition busy_without_url : app :=
  {| url_var := "";
     quality_var := "1080p";
     shown := {| progress_var := 45.3%Q; status_var := DownloadingAt 45.3%Q |};
     formats_data := [("1080p", Single combined_1080)];
     download_thread := Some {| is_alive := true |} |}.

(** * Properties of the format resolver *)

Section PythonHelpers.

Lemma Qgtb_true (a b : Q) : Qgtb a b = true <-> (b < a)%Q.
Proof.
  unfold Qgtb. rewrite (Qgt_alt a b).
  destruct (a ?= b)%Q; split; intros H; congruence.
Qed.

Lemma Qgtb_false (a b : Q) : Qgtb a b = false <-> (a <= b)%Q.
Proof.
  split; intros H.
  - apply Qnot_lt_le. intros L. apply Qgtb_true in L. congruence.
  - destruct (Qgtb a b) eqn:E; [|reflexivity].
    apply Qgtb_true in E. exfalso. exact (Qlt_not_le _ _ E H).
Qed.

Lemma string_length_append (a b : string) :
  String.length (a ++ b)%string = (String.length a + String.length b)%nat.
Proof.
  induction a as [|c a IH]; simpl; [reflexivity | now rewrite IH].
Qed.

Lemma string_app_inv_tail (c a b : string) :
  (a ++ c)%string = (b ++ c)%string -> a = b.
Proof.
  revert b. induction a as [|x a IH]; intros [|y b] H; simpl in H.
  - reflexivity.
  - apply (f_equal String.length) in H. simpl in H.
    rewrite string_length_append in H. lia.
  - apply (f_equal String.length) in H. simpl in H.
    rewrite string_length_append in H. lia.
  - injection H as -> H. f_equal. now apply IH.
Qed.

Lemma str_int_inj (a b : Z) : str_int a = str_int b -> a = b.
Proof.
  unfold str_int. intros H.
  apply DecimalZ.to_int_inj.
  assert (E : Some (Z.to_int a) = Some (Z.to_int b)).
  { rewrite <- !NilEmpty.isi. now rewrite H. }
  now injection E.
Qed.

End PythonHelpers.

Lemma quality_key_inj (a b : Z) : quality_key a = quality_key b -> a = b.
Proof.
  unfold quality_key. intros H.
  apply str_int_inj. exact (string_app_inv_tail _ _ _ H).
Qed.

(** ** The insertion-ordered dict *)

Section Dict.

Lemma dict_set_In (k : string) (v : entry) (m : dict) (k' : string)
  (e : entry) :
  In (k', e) (dict_set k v m) -> (k' = k /\ e = v) \/ In (k', e) m.
Proof.
  induction m as [|[k0 v0] m IH]; simpl.
  - intros [E|[]]. injection E as <- <-. now left.
  - destruct (String.eqb_spec k k0) as [->|N]; simpl.
    + intros [E|I]; [injection E as <- <-; now left | right; now right].
    + intros [E|I]; [right; now left|].
      destruct (IH I) as [L|R]; [now left | right; now right].
Qed.

Lemma dict_set_keys (k : string) (v : entry) (m : dict) (k' : string) :
  In k' (map fst (dict_set k v m)) <-> k' = k \/ In k' (map fst m).
Proof.
  induction m as [|[k0 v0] m IH]; simpl.
  - intuition congruence.
  - destruct (String.eqb_spec k k0) as [->|N]; simpl.
    + intuition congruence.
    + rewrite IH. intuition congruence.
Qed.

Lemma dict_set_NoDup (k : string) (v : entry) (m : dict) :
  NoDup (map fst m) -> NoDup (map fst (dict_set k v m)).
Proof.
  induction m as [|[k0 v0] m IH]; simpl; intros ND.
  - constructor; [tauto | constructor].
  - inversion ND as [|? ? NI ND']; subst.
    destruct (String.eqb_spec k k0) as [->|N]; simpl.
    + now constructor.
    + constructor; [|now apply IH].
      rewrite dict_set_keys. intros [E|I]; [congruence | tauto].
Qed.

Lemma dict_get_set_same (k : string) (v : entry) (m : dict) :
  dict_get k (dict_set k v m) = Some v.
Proof.
  induction m as [|[k0 v0] m IH]; simpl.
  - now rewrite String.eqb_refl.
  - destruct (String.eqb_spec k k0) as [->|N]; simpl.
    + now rewrite String.eqb_refl.
    + destruct (String.eqb_spec k k0); [congruence | exact IH].
Qed.

End Dict.

(** ** Where the values of [quality_map] come from *)

Section QualityMap.

Variable formats : list fmt.

Lemma truthy_height_entry (f : fmt) (h : Z) :
  truthy_height f = Some h -> entry_height (Single f) = h /\ h <> 0.
Proof.
  unfold truthy_height. simpl. destruct (height f) as [h'|]; [|discriminate].
  destruct (Z.eqb_spec h' 0); [discriminate|].
  intros E. injection E as <-. now split.
Qed.

Lemma well_formed_set (m : dict) (h : Z) (e : entry) :
  well_formed formats m -> entry_height e = h -> from_formats formats e ->
  well_formed formats (dict_set (quality_key h) e m).
Proof.
  intros [ND W] Hh Hf. split; [now apply dict_set_NoDup|].
  intros k e' I. destruct (dict_set_In _ _ _ _ _ I) as [[-> ->]|I'].
  - now rewrite Hh.
  - now apply W.
Qed.

Lemma process_format_well_formed (m : dict) (f : fmt) :
  In f formats -> well_formed formats m ->
  well_formed formats (process_format formats m f).
Proof.
  intros If W. unfold process_format.
  destruct (video_with_audio f) eqn:Eva.
  - destruct (truthy_height f) as [h|] eqn:Eh; [|exact W].
    destruct (truthy_height_entry _ _ Eh) as [Hh _].
    destruct (_ || _); [|exact W].
    apply well_formed_set; [exact W | exact Hh |].
    simpl. repeat split; [exact If | exact Eva |]. simpl in Hh. now rewrite Hh.
  - destruct (video_only f) eqn:Evo; [|exact W].
    destruct (truthy_height f) as [h|] eqn:Eh; [|exact W].
    destruct (find_best_audio formats) as [b|] eqn:Eb; [|exact W].
    destruct (_ || _); [|exact W].
    apply well_formed_set; [exact W | reflexivity |].
    simpl. exists f, b. repeat split; assumption.
Qed.

Lemma quality_map_after_well_formed (done : list fmt) :
  incl done formats -> well_formed formats (quality_map_after formats done).
Proof.
  unfold quality_map_after.
  assert (G : forall m, well_formed formats m -> incl done formats ->
                        well_formed formats
                          (fold_left (process_format formats) done m)).
  { induction done as [|f done IH]; intros m W I; simpl; [exact W|].
    apply IH.
    - apply process_format_well_formed; [apply I; now left | exact W].
    - intros x Hx. apply I. now right. }
  intros I. apply G; [|exact I].
  split; [constructor | intros k e []].
Qed.

End QualityMap.

Lemma build_quality_map_well_formed (formats : list fmt) :
  well_formed formats (build_quality_map formats).
Proof.
  apply quality_map_after_well_formed, incl_refl.
Qed.

(** ** The best audio descriptor *)

Section BestAudio.

Lemma best_audio_step_so_far (seen : list fmt) (best : option fmt) (f : fmt) :
  best_so_far seen best ->
  best_so_far (seen ++ [f]) (best_audio_step best f).
Proof.
  unfold best_audio_step.
  destruct (audio_only f) eqn:Ea.
  - destruct best as [a|]; simpl.
    + intros (Ia & Aa & M).
      destruct (Qgtb (or0 (abr f)) (or0 (abr a))) eqn:Eg; simpl.
      * apply Qgtb_true in Eg. split; [apply in_or_app; right; now left|].
        split; [exact Ea|].
        intros b Ib Ab. apply in_app_or in Ib. destruct Ib as [Ib|[<-|[]]].
        -- apply Qle_trans with (or0 (abr a)); [now apply M|].
           now apply Qlt_le_weak.
        -- apply Qle_refl.
      * apply Qgtb_false in Eg. split; [apply in_or_app; now left|].
        split; [exact Aa|].
        intros b Ib Ab. apply in_app_or in Ib. destruct Ib as [Ib|[<-|[]]].
        -- now apply M.
        -- exact Eg.
    + intros N. split; [apply in_or_app; right; now left|].
      split; [exact Ea|].
      intros b Ib Ab. apply in_app_or in Ib. destruct Ib as [Ib|[<-|[]]].
      * rewrite (N b Ib) in Ab. discriminate.
      * apply Qle_refl.
  - destruct best as [a|]; simpl.
    + intros (Ia & Aa & M). split; [apply in_or_app; now left|].
      split; [exact Aa|].
      intros b Ib Ab. apply in_app_or in Ib. destruct Ib as [Ib|[<-|[]]].
      * now apply M.
      * congruence.
    + intros N b Ib. apply in_app_or in Ib. destruct Ib as [Ib|[<-|[]]].
      * now apply N.
      * exact Ea.
Qed.

Lemma fold_best_audio_so_far (l seen : list fmt) (best : option fmt) :
  best_so_far seen best ->
  best_so_far (seen ++ l) (fold_left best_audio_step l best).
Proof.
  revert seen best. induction l as [|f l IH]; intros seen best H; simpl.
  - now rewrite app_nil_r.
  - replace (seen ++ f :: l) with ((seen ++ [f]) ++ l)
      by (now rewrite <- app_assoc).
    apply IH. now apply best_audio_step_so_far.
Qed.

Lemma find_best_audio_spec (formats : list fmt) :
  best_so_far formats (find_best_audio formats).
Proof.
  apply (fold_best_audio_so_far formats [] None). intros f [].
Qed.

End BestAudio.

(** ** The stable descending sort *)

Section Sorting.

Lemma insert_desc_perm (x : string * entry) (l : dict) :
  Permutation (insert_desc x l) (x :: l).
Proof.
  induction l as [|y l IH]; simpl; [apply Permutation_refl|].
  destruct (Z.ltb _ _).
  - apply Permutation_trans with (y :: x :: l);
      [now apply perm_skip | apply perm_swap].
  - apply Permutation_refl.
Qed.

Lemma sorted_desc_perm (l : dict) : Permutation (sorted_desc l) l.
Proof.
  induction l as [|x l IH]; simpl; [constructor|].
  apply Permutation_trans with (x :: sorted_desc l);
    [apply insert_desc_perm | now apply perm_skip].
Qed.

Lemma insert_desc_sorted (x : string * entry) (l : dict) :
  StronglySorted desc l -> StronglySorted desc (insert_desc x l).
Proof.
  induction l as [|y l IH]; simpl; intros S.
  - constructor; constructor.
  - inversion S as [|? ? S' F]; subst.
    destruct (Z.ltb_spec (entry_height (snd x)) (entry_height (snd y)))
      as [L|G].
    + constructor; [now apply IH|].
      apply Forall_forall. intros z Iz.
      apply (Permutation_in _ (insert_desc_perm x l)) in Iz.
      destruct Iz as [<-|Iz].
      * unfold desc. lia.
      * rewrite Forall_forall in F. now apply F.
    + constructor; [exact S|].
      constructor; [unfold desc; lia|].
      apply Forall_forall. intros z Iz.
      rewrite Forall_forall in F. specialize (F z Iz).
      unfold desc in *. lia.
Qed.

Lemma sorted_desc_sorted (l : dict) : StronglySorted desc (sorted_desc l).
Proof.
  induction l as [|x l IH]; simpl; [constructor|].
  now apply insert_desc_sorted.
Qed.

End Sorting.

Lemma fetch_qualities_In (formats : list fmt) (x : string * entry) :
  In x (fetch_qualities formats) <-> In x (build_quality_map formats).
Proof.
  unfold fetch_qualities. split; apply Permutation_in.
  - apply sorted_desc_perm.
  - apply Permutation_sym, sorted_desc_perm.
Qed.

Lemma fetch_qualities_entry (formats : list fmt) (k : string) (e : entry) :
  In (k, e) (fetch_qualities formats) ->
  k = quality_key (entry_height e) /\ from_formats formats e.
Proof.
  intros I. apply fetch_qualities_In in I.
  now apply (proj2 (build_quality_map_well_formed formats)).
Qed.

(** ** The claims about the resolver *)

(** C1.  The merge of a combined and a paired candidate at one height is
    meant to keep the combined one only when its bitrate is strictly
    larger than the paired video bitrate.  With the video-only 1080p
    descriptor (8000) listed before the combined 1080p descriptor
    (5000), the loop stores the pair first and then overwrites it with
    the combined descriptor, although 5000 is not larger than 8000.
    With the combined descriptor listed first the pair is kept. *)
Theorem combined_5000_beats_pair_8000_when_listed_second :
  fetch_qualities [video_1080; combined_1080; audio_128]
  = [("1080p", Single combined_1080)]
  /\ fetch_qualities [combined_1080; video_1080; audio_128]
     = [("1080p", Paired "137" "140" 1080 (8000 # 1))]
  /\ ~ (or0 (tbr video_1080) < or0 (tbr combined_1080))%Q.
Proof.
  split; [|split].
  - vm_compute. reflexivity.
  - vm_compute. reflexivity.
  - intros H. vm_compute in H. discriminate.
Qed.

(** C2.  When the loop reaches a combined descriptor [c] and
    [quality_map] already holds a paired value under [c]'s key, [c]
    replaces that value as soon as its bitrate is positive, whatever the
    stored video bitrate [t] is: the bitrate read from the paired value
    is 0.  Hence the result depends on the order of [formats]. *)
Theorem combined_replaces_stored_pair :
  (forall formats done c rest h v a hp t,
      formats = done ++ c :: rest ->
      video_with_audio c = true ->
      truthy_height c = Some h ->
      dict_get (quality_key h) (quality_map_after formats done)
      = Some (Paired v a hp t) ->
      (0 < or0 (tbr c))%Q ->
      get_tbr (dict_get (quality_key h) (quality_map_after formats done))
      = 0%Q
      /\ dict_get (quality_key h) (quality_map_after formats (done ++ [c]))
         = Some (Single c))
  /\ exists l l',
      Permutation l l' /\ fetch_qualities l <> fetch_qualities l'.
Proof.
  split.
  - intros formats done c rest h v a hp t _ Hva Hh Hget Hpos.
    split; [now rewrite Hget|].
    unfold quality_map_after in *. rewrite fold_left_app. simpl.
    set (m := fold_left (process_format formats) done []) in *.
    unfold process_format. rewrite Hva, Hh, Hget. simpl.
    apply Qgtb_true in Hpos. rewrite Hpos, orb_true_r.
    apply dict_get_set_same.
  - exists [video_1080; combined_1080; audio_128],
           [combined_1080; video_1080; audio_128].
    split; [apply perm_swap|].
    vm_compute. discriminate.
Qed.

Lemma combined_replaces_stored_pair_witness :
  dict_get (quality_key 1080)
    (quality_map_after [video_1080; combined_1080; audio_128] [video_1080])
  = Some (Paired "137" "140" 1080 (8000 # 1))
  /\ dict_get (quality_key 1080)
       (quality_map_after [video_1080; combined_1080; audio_128]
          ([video_1080] ++ [combined_1080]))
     = Some (Single combined_1080).
Proof.
  assert (P : dict_get (quality_key 1080)
                (quality_map_after [video_1080; combined_1080; audio_128]
                   [video_1080])
              = Some (Paired "137" "140" 1080 (8000 # 1)))
    by (vm_compute; reflexivity).
  split; [exact P|].
  apply (proj1 combined_replaces_stored_pair
           [video_1080; combined_1080; audio_128] [video_1080]
           combined_1080 [audio_128] 1080 "137" "140" 1080 (8000 # 1));
    [reflexivity | reflexivity | reflexivity | exact P | reflexivity].
Defined.

(** C3.  The entries of the result come in non-increasing order of
    height, and each label is the decimal height followed by [p]. *)
Theorem fetch_qualities_descending (formats : list fmt) :
  StronglySorted (fun x y => entry_height (snd y) <= entry_height (snd x))
    (fetch_qualities formats)
  /\ forall k e, In (k, e) (fetch_qualities formats) ->
       k = quality_key (entry_height e).
Proof.
  split.
  - apply sorted_desc_sorted.
  - intros k e I. now apply (fetch_qualities_entry formats).
Qed.

(** C4.  No label occurs twice in the result, and no height occurs
    twice. *)
Theorem fetch_qualities_unique (formats : list fmt) :
  NoDup (labels formats)
  /\ NoDup (map (fun x => entry_height (snd x)) (fetch_qualities formats)).
Proof.
  assert (ND : NoDup (labels formats)).
  { unfold labels, fetch_qualities.
    apply (Permutation_NoDup
             (l := map fst (build_quality_map formats))).
    - apply Permutation_map, Permutation_sym, sorted_desc_perm.
    - apply (build_quality_map_well_formed formats). }
  split; [exact ND|].
  apply (NoDup_map_inv quality_key).
  rewrite map_map.
  replace (map (fun x => quality_key (entry_height (snd x)))
             (fetch_qualities formats))
    with (labels formats); [exact ND|].
  unfold labels. apply map_ext_in. intros [k e] I. simpl.
  now apply (fetch_qualities_entry formats).
Qed.

(** C8.  Without an audio-only descriptor every entry of the result is a
    combined descriptor of the list, so no video-only descriptor yields
    an option.  The audio descriptor of every pair is the one the inner
    loop finds, which is an audio-only descriptor of the list whose
    [abr] (0 when missing) no other audio-only descriptor exceeds. *)
Theorem video_only_needs_best_audio (formats : list fmt) :
  ((forall f, In f formats -> audio_only f = false) ->
   forall k e, In (k, e) (fetch_qualities formats) ->
     exists f, e = Single f /\ In f formats
               /\ video_with_audio f = true /\ video_only f = false)
  /\ (forall k v a h t,
        In (k, Paired v a h t) (fetch_qualities formats) ->
        exists b, find_best_audio formats = Some b /\ a = format_id b)
  /\ (forall b, find_best_audio formats = Some b ->
        In b formats /\ audio_only b = true
        /\ forall b', In b' formats -> audio_only b' = true ->
             (or0 (abr b') <= or0 (abr b))%Q)
  /\ (find_best_audio formats = None <->
      forall f, In f formats -> audio_only f = false).
Proof.
  pose proof (find_best_audio_spec formats) as B.
  split; [|split; [|split; [|split]]].
  - intros N k e I.
    destruct (fetch_qualities_entry _ _ _ I) as [_ F].
    destruct e as [f|v a h t]; simpl in F.
    + exists f. destruct F as (If & Va & _).
      repeat split; [exact If | exact Va |].
      revert Va. unfold video_with_audio, video_only, not_none.
      destruct (is_none (vcodec f)), (is_none (acodec f)); simpl; congruence.
    + destruct F as (f & b & _ & _ & _ & Eb & _).
      rewrite Eb in B. destruct B as (Ib & Ab & _).
      rewrite (N b Ib) in Ab. discriminate.
  - intros k v a h t I.
    destruct (fetch_qualities_entry _ _ _ I) as [_ F]. simpl in F.
    destruct F as (f & b & _ & _ & _ & Eb & _ & -> & _).
    now exists b.
  - intros b H. rewrite H in B. exact B.
  - intros E. now rewrite E in B.
  - intros N. destruct (find_best_audio formats) as [b|]; [|reflexivity].
    destruct B as (Ib & Ab & _). rewrite (N b Ib) in Ab. discriminate.
Qed.

Lemma video_only_needs_best_audio_witness :
  In ("720p", Single combined_720)
    (fetch_qualities [video_1080; combined_720])
  /\ exists f, Single combined_720 = Single f
             /\ In f [video_1080; combined_720]
             /\ video_with_audio f = true /\ video_only f = false.
Proof.
  assert (I : In ("720p", Single combined_720)
                (fetch_qualities [video_1080; combined_720]))
    by (vm_compute; now left).
  split; [exact I|].
  apply (proj1 (video_only_needs_best_audio [video_1080; combined_720]))
    with (k := "720p"); [|exact I].
  intros f [<-|[<-|[]]]; reflexivity.
Defined.

Lemma line_events_no_popen (lines : list text) (cmd : list string) :
  ~ In (Session.popen cmd) (flat_map Session.line_events lines).
Proof.
  induction lines as [|line lines IH]; simpl; [tauto|].
  intros H. apply in_app_or in H. destruct H as [H|H]; [|now apply IH].
  unfold Session.line_events in H.
  destruct (extract line) as [[[q|] []]|]; simpl in H;
    repeat (destruct H as [H|H]; try discriminate H); contradiction.
Qed.

(** C9.  Whenever the selected quality is in [formats_data], the one
    command that [download_thread] starts is [yt-dlp] with, right after
    [-f], the format id of a [Single] value or the two ids of a
    [Paired] value joined by [+], then the merge format, the output
    path and the stripped URL.  A list that holds one combined
    descriptor of height 720, whatever its id and bitrate, gives the
    single option [720p] with the [Single] selection of that
    descriptor; so does the descriptor with bitrate 2000. *)
Theorem format_selector_shape :
  (forall output_path a p format_info cmd,
      dict_get (quality_var a) (formats_data a) = Some format_info ->
      (In (Session.popen cmd) (Session.download_thread_body output_path a p)
       <-> cmd
           = ["yt-dlp"; "-f";
              match format_info with
              | Single f => format_id f
              | Paired video_id audio_id _ _ =>
                  (video_id ++ "+" ++ audio_id)%string
              end;
              "--merge-output-format"; "mp4"; "-o"; output_path;
              string_of_list_ascii (strip (lit (url_var a)))]))
  /\ (forall f,
        video_with_audio f = true -> height f = Some 720 ->
        fetch_qualities [f] = [("720p", Single f)]
        /\ options [f] = [("720p", SelSingle (format_id f))]
        /\ map (fun x => format_selector (snd x)) (fetch_qualities [f])
           = [format_id f])
  /\ options [combined_720] = [("720p", SelSingle "22")].
Proof.
  split; [|split; [|reflexivity]].
  - intros output_path a p format_info cmd G.
    unfold Session.download_thread_body. rewrite G.
    unfold Session.download_cmd.
    assert (Sel : format_selector format_info
                  = match format_info with
                    | Single f => format_id f
                    | Paired video_id audio_id _ _ =>
                        (video_id ++ "+" ++ audio_id)%string
                    end) by (now destruct format_info).
    rewrite Sel. split.
    + intros H. apply in_app_or in H. destruct H as [H|H].
      * cbn [In] in H.
        repeat (destruct H as [H|H]; try discriminate H); contradiction.
      * apply in_app_or in H. destruct H as [H|H].
        -- cbn [In] in H. destruct H as [H|H]; [now injection H as <-|].
           exfalso.
           destruct p as [lines rc|lines t]; apply in_app_or in H;
             destruct H as [H|H];
             try (now apply line_events_no_popen in H).
           ++ destruct (rc =? 0)%Z; cbn [In] in H;
                repeat (destruct H as [H|H]; try discriminate H);
                contradiction.
           ++ cbn [In] in H.
              repeat (destruct H as [H|H]; try discriminate H);
                contradiction.
        -- cbn [In] in H. destruct H as [H|[]]. discriminate H.
    + intros ->. apply in_or_app. right. apply in_or_app. left. now left.
  - intros f Va Hh.
    assert (E : fetch_qualities [f] = [("720p", Single f)]).
    { unfold fetch_qualities, build_quality_map, quality_map_after.
      cbn [fold_left]. unfold process_format, truthy_height.
      rewrite Va, Hh. reflexivity. }
    unfold options. rewrite E. repeat split.
Qed.

Lemma format_selector_shape_witness :
  In (Session.popen
        ["yt-dlp"; "-f"; "37"; "--merge-output-format"; "mp4"; "-o";
         "Videos/%(title)s.%(ext)s"; "https://example.org/v"])
    (Session.download_thread_body "Videos/%(title)s.%(ext)s" busy
       (Session.Exits [progress_line] 0))
  /\ options [combined_720] = [("720p", SelSingle (format_id combined_720))].
Proof.
  split.
  - apply (proj1 format_selector_shape "Videos/%(title)s.%(ext)s" busy
             (Session.Exits [progress_line] 0) (Single combined_1080)).
    + reflexivity.
    + reflexivity.
  - apply (proj1 (proj2 format_selector_shape) combined_720); reflexivity.
Defined.

(** * Properties of the progress extractor *)

Section Text.

Lemma starts_with_spec (w s : text) :
  starts_with w s = true <-> exists q, s = w ++ q.
Proof.
  revert s. induction w as [|a w IH]; intros s; simpl.
  - split; [intros _; now exists s | reflexivity].
  - destruct s as [|b s].
    + split; [discriminate | intros [q H]; discriminate].
    + rewrite andb_true_iff, IH. split.
      * intros [E [q ->]]. apply Ascii.eqb_eq in E. subst. now exists q.
      * intros [q H]. injection H as -> ->.
        split; [apply Ascii.eqb_refl | now exists q].
Qed.

Lemma contains_spec (w s : text) :
  contains w s = true <-> exists p q, s = p ++ w ++ q.
Proof.
  induction s as [|b s IH].
  - simpl. rewrite orb_false_r, starts_with_spec. split.
    + intros [q H]. now exists [], q.
    + intros (p & q & H). destruct p; [now exists q | discriminate].
  - cbn [contains]. rewrite orb_true_iff, starts_with_spec, IH. split.
    + intros [[q H]|(p & q & H)].
      * now exists [], q.
      * exists (b :: p), q. now rewrite H.
    + intros (p & q & H). destruct p as [|x p].
      * left. now exists q.
      * right. injection H as _ H. now exists p, q.
Qed.

Lemma lstrip_spec (s : text) : exists a, s = a ++ lstrip s /\ spaces a.
Proof.
  induction s as [|c s (a & E & Sa)]; simpl.
  - exists []. split; [reflexivity | constructor].
  - destruct (is_space c) eqn:Ec.
    + exists (c :: a). split; [simpl; now f_equal | now constructor].
    + exists []. split; [reflexivity | constructor].
Qed.

Lemma rstrip_spec (s : text) : exists b, s = rstrip s ++ b /\ spaces b.
Proof.
  unfold rstrip. destruct (lstrip_spec (rev s)) as (a & E & Sa).
  exists (rev a). split.
  - rewrite <- rev_app_distr, <- E. now rewrite rev_involutive.
  - now apply Forall_rev.
Qed.

Lemma strip_spec (s : text) :
  exists a b, s = a ++ strip s ++ b /\ spaces a /\ spaces b.
Proof.
  unfold strip. destruct (lstrip_spec s) as (a & Ea & Sa).
  destruct (rstrip_spec (lstrip s)) as (b & Eb & Sb).
  exists a, b. split; [|now split].
  now rewrite <- Eb.
Qed.

(** White space in front of a text cannot reach into a solid word. *)
Lemma spaces_before (a p x y : text) (c : ascii) :
  a ++ x = p ++ c :: y -> spaces a -> is_space c = false ->
  exists p', p = a ++ p'.
Proof.
  revert p. induction a as [|z a IH]; intros p E Sa Nc.
  - now exists p.
  - inversion Sa as [|? ? Sz Sa']; subst.
    destruct p as [|z' p]; simpl in E.
    + injection E as -> _. congruence.
    + injection E as -> E. destruct (IH p E Sa' Nc) as [p' ->].
      now exists p'.
Qed.

Lemma spaces_after (b q x y : text) (d : ascii) :
  x ++ b = y ++ [d] ++ q -> spaces b -> is_space d = false ->
  exists q', q = q' ++ b.
Proof.
  intros E Sb Nd.
  apply (f_equal (@rev ascii)) in E.
  rewrite !rev_app_distr in E. simpl in E. rewrite <- app_assoc in E.
  simpl in E.
  destruct (spaces_before (rev b) (rev q) (rev x) (rev y) d E) as [q' Eq].
  - now apply Forall_rev.
  - exact Nd.
  - exists (rev q'). rewrite <- (rev_involutive q), Eq, rev_app_distr.
    now rewrite rev_involutive.
Qed.

(** An occurrence of a solid word in [a ++ m ++ b], with [a] and [b]
    white space, lies in [m]. *)
Lemma solid_inside (a m b p w q : text) :
  a ++ m ++ b = p ++ w ++ q -> spaces a -> spaces b -> solid w ->
  exists p' q', p = a ++ p' /\ q = q' ++ b /\ m = p' ++ w ++ q'.
Proof.
  intros E Sa Sb (c & w' & d & Ew & El & Nc & Nd).
  assert (E1 : a ++ (m ++ b) = p ++ c :: (w' ++ q)) by (now rewrite E, Ew).
  destruct (spaces_before _ _ _ _ _ E1 Sa Nc) as [p' ->].
  assert (E2 : (a ++ m) ++ b = ((a ++ p') ++ removelast w) ++ [d] ++ q).
  { rewrite <- !app_assoc. rewrite E. rewrite El at 1.
    now rewrite <- !app_assoc. }
  destruct (spaces_after _ _ _ _ _ E2 Sb Nd) as [q' ->].
  exists p', q'. split; [reflexivity|]. split; [reflexivity|].
  rewrite <- app_assoc in E. apply app_inv_head in E.
  rewrite !app_assoc in E. apply app_inv_tail in E.
  now rewrite <- !app_assoc in E.
Qed.

Lemma contains_strip (w s : text) :
  solid w -> contains w (strip s) = contains w s.
Proof.
  intros Sw. destruct (strip_spec s) as (a & b & E & Sa & Sb).
  apply eq_true_iff_eq. rewrite !contains_spec. split.
  - intros (p & q & H). exists (a ++ p), (q ++ b).
    rewrite E at 1. rewrite H. now rewrite <- !app_assoc.
  - intros (p & q & H). rewrite E in H.
    destruct (solid_inside _ _ _ _ _ _ H Sa Sb Sw) as (p' & q' & _ & _ & Em).
    now exists p', q'.
Qed.

End Text.

(** ** The matcher *)

Section Matcher.

Variable p : ascii -> bool.
Variable k : text -> option (list text).

Lemma star_sound (s m : text) (r : list text) :
  star p k s = Some (m, r) ->
  forallb p m = true /\ exists rest, s = m ++ rest /\ k rest = Some r.
Proof.
  revert m. induction s as [|c s IH]; intros m; simpl.
  - destruct (k []) as [r'|] eqn:Ek; simpl; [|discriminate].
    intros H. injection H as <- <-. split; [reflexivity | now exists []].
  - destruct (p c) eqn:Ec.
    + destruct (star p k s) as [[m' r']|] eqn:Es.
      * intros H. injection H as <- <-.
        destruct (IH m' eq_refl) as (F & rest & -> & K).
        split; [simpl; now rewrite Ec | now exists rest].
      * destruct (k (c :: s)) as [r'|] eqn:Ek; simpl; [|discriminate].
        intros H. injection H as <- <-.
        split; [reflexivity | now exists (c :: s)].
    + destruct (k (c :: s)) as [r'|] eqn:Ek; simpl; [|discriminate].
      intros H. injection H as <- <-.
      split; [reflexivity | now exists (c :: s)].
Qed.

Lemma star_greedy (m rest : text) (r : list text) :
  forallb p m = true -> stops p rest -> k rest = Some r ->
  star p k (m ++ rest) = Some (m, r).
Proof.
  intros F St K. induction m as [|c m IH]; simpl in *.
  - destruct rest as [|c rest]; simpl in *.
    + now rewrite K.
    + rewrite St. now rewrite K.
  - apply andb_true_iff in F. destruct F as [Ec F].
    rewrite Ec, (IH F). reflexivity.
Qed.

End Matcher.

Section MatchHere.

Lemma match_here_one (c : ascii -> bool) (its : list item) (s : text) :
  match_here ({| cls := c; rep := One |} :: its) s
  = match s with
    | x :: s' =>
        if c x then option_map (cons [x]) (match_here its s') else None
    | [] => None
    end.
Proof. reflexivity. Qed.

Lemma match_here_opt (c : ascii -> bool) (its : list item) (s : text) :
  match_here ({| cls := c; rep := Opt |} :: its) s
  = match s with
    | x :: s' =>
        if c x then
          match match_here its s' with
          | Some r => Some ([x] :: r)
          | None => option_map (cons []) (match_here its s)
          end
        else option_map (cons []) (match_here its s)
    | [] => option_map (cons []) (match_here its s)
    end.
Proof. reflexivity. Qed.

Lemma match_here_star (c : ascii -> bool) (its : list item) (s : text) :
  match_here ({| cls := c; rep := Star |} :: its) s
  = option_map (fun mr => fst mr :: snd mr) (star c (match_here its) s).
Proof. reflexivity. Qed.

Lemma match_here_plus (c : ascii -> bool) (its : list item) (s : text) :
  match_here ({| cls := c; rep := Plus |} :: its) s
  = match s with
    | x :: s' =>
        if c x
        then option_map (fun mr => (x :: fst mr) :: snd mr)
               (star c (match_here its) s')
        else None
    | [] => None
    end.
Proof. reflexivity. Qed.

(** Every item took a text it accepts, and the texts taken make up a
    prefix of the input. *)
Lemma match_here_sound (its : list item) (s : text) (r : list text) :
  match_here its s = Some r ->
  Forall2 accepts its r /\ exists post, s = List.concat r ++ post.
Proof.
  revert s r. induction its as [|[c q] its IH]; intros s r.
  - simpl. intros H. injection H as <-. split; [constructor | now exists s].
  - destruct q.
    + rewrite match_here_one. destruct s as [|x s]; [discriminate|].
      destruct (c x) eqn:Ex; [|discriminate].
      destruct (match_here its s) as [r'|] eqn:E; [|discriminate].
      simpl. intros H. injection H as <-.
      destruct (IH _ _ E) as (F & post & ->).
      split; [|now exists post].
      constructor; [|exact F]. split; simpl; [now rewrite Ex | reflexivity].
    + rewrite match_here_opt.
      assert (Skip : option_map (cons []) (match_here its s) = Some r ->
                     Forall2 accepts ({| cls := c; rep := Opt |} :: its) r
                     /\ exists post, s = List.concat r ++ post).
      { destruct (match_here its s) as [r'|] eqn:E; [|discriminate].
        simpl. intros H. injection H as <-.
        destruct (IH _ _ E) as (F & post & Es).
        split; [|now exists post].
        constructor; [|exact F]. split; simpl; [reflexivity | lia]. }
      destruct s as [|x s]; [exact Skip|].
      destruct (c x) eqn:Ex; [|exact Skip].
      destruct (match_here its s) as [r'|] eqn:E; [|exact Skip].
      intros H. injection H as <-.
      destruct (IH _ _ E) as (F & post & ->).
      split; [|now exists post].
      constructor; [|exact F]. split; simpl; [now rewrite Ex | lia].
    + rewrite match_here_star.
      destruct (star c (match_here its) s) as [[m r']|] eqn:E; [|discriminate].
      simpl. intros H. injection H as <-.
      destruct (star_sound _ _ _ _ _ E) as (Fm & rest & -> & K).
      destruct (IH _ _ K) as (F & post & ->).
      split; [|exists post; simpl; now rewrite <- app_assoc].
      constructor; [|exact F]. now split.
    + rewrite match_here_plus. destruct s as [|x s]; [discriminate|].
      destruct (c x) eqn:Ex; [|discriminate].
      destruct (star c (match_here its) s) as [[m r']|] eqn:E; [|discriminate].
      simpl. intros H. injection H as <-.
      destruct (star_sound _ _ _ _ _ E) as (Fm & rest & -> & K).
      destruct (IH _ _ K) as (F & post & ->).
      split; [|exists post; simpl; now rewrite <- app_assoc].
      constructor; [|exact F]. split; simpl; [now rewrite Ex, Fm | lia].
Qed.

End MatchHere.

Section PercentPattern.

Lemma span_digits_app (ds rest : text) :
  forallb is_digit ds = true -> stops is_digit rest ->
  span_digits (ds ++ rest) = (ds, rest).
Proof.
  intros F St. induction ds as [|c ds IH]; simpl in *.
  - destruct rest as [|c rest]; simpl in *; [reflexivity | now rewrite St].
  - apply andb_true_iff in F. destruct F as [Ec F].
    now rewrite Ec, (IH F).
Qed.

Lemma span_digits_spec (s ds rest : text) :
  span_digits s = (ds, rest) ->
  s = ds ++ rest /\ forallb is_digit ds = true /\ stops is_digit rest.
Proof.
  revert ds. induction s as [|c s IH]; intros ds; simpl.
  - intros H. injection H as <- <-. now repeat split.
  - destruct (is_digit c) eqn:Ec.
    + destruct (span_digits s) as [ds' r'].
      intros H. injection H as <- <-.
      destruct (IH ds' eq_refl) as (-> & F & St).
      repeat split; [simpl; now rewrite Ec | exact St].
    + intros H. injection H as <- <-. now repeat split.
Qed.

(** The shapes of a numeric value. *)
Lemma is_numeric_shape (n : text) :
  is_numeric n = true <->
  exists c ds dot fs,
    n = (c :: ds) ++ dot ++ fs
    /\ forallb is_digit (c :: ds) = true /\ forallb is_digit fs = true
    /\ (dot = [] /\ fs = [] \/ dot = lit ".").
Proof.
  unfold is_numeric. split.
  - destruct (span_digits n) as [ds rest] eqn:E.
    destruct (span_digits_spec _ _ _ E) as (-> & F & St).
    destruct ds as [|c ds]; [discriminate|].
    destruct rest as [|d fs].
    + intros _. exists c, ds, [], []. repeat split; [exact F | now left].
    + intros H. apply andb_true_iff in H. destruct H as [Ed Ff].
      apply Ascii.eqb_eq in Ed. subst d.
      exists c, ds, (lit "."), fs. repeat split; [exact F | exact Ff | now right].
  - intros (c & ds & dot & fs & -> & F & Ff & [[-> ->] | ->]).
    + rewrite span_digits_app; [reflexivity | exact F | exact I].
    + rewrite span_digits_app; [|exact F | reflexivity].
      simpl. exact Ff.
Qed.

(** A match of the pattern is a numeric value and a percent sign. *)
Lemma match_here_percent_sound (s : text) (r : list text) :
  match_here percent_re s = Some r ->
  is_numeric (group1 r) = true
  /\ exists post, s = group1 r ++ lit "%" ++ post.
Proof.
  intros H. destruct (match_here_sound _ _ _ H) as (F & post & ->).
  unfold percent_re in F.
  inversion F as [|? m1 ? r1 [F1 L1] G1]; subst.
  inversion G1 as [|? m2 ? r2 [F2 L2] G2]; subst.
  inversion G2 as [|? m3 ? r3 [F3 _] G3]; subst.
  inversion G3 as [|? m4 ? r4 [F4 L4] G4]; subst.
  inversion G4; subst. clear F G1 G2 G3 G4. simpl in *.
  destruct m4 as [|x [|? ?]]; try discriminate.
  simpl in F4. rewrite andb_true_r in F4. unfold is_char in F4.
  apply Ascii.eqb_eq in F4. subst x.
  unfold group1. cbn [firstn List.concat]. rewrite !app_nil_r.
  split; [|exists post; now rewrite <- !app_assoc].
  destruct m1 as [|c m1]; [simpl in L1; lia|].
  apply is_numeric_shape.
  destruct m2 as [|d [|? ?]]; [| |simpl in L2; lia].
  - exists c, (m1 ++ m3), [], []. rewrite !app_nil_r. simpl.
    split; [reflexivity|]. split; [|split; [reflexivity | now left]].
    simpl in F1. apply andb_true_iff in F1. destruct F1 as [Ec F1].
    rewrite Ec, forallb_app, F1, F3. reflexivity.
  - simpl in F2. rewrite andb_true_r in F2. unfold is_char in F2.
    apply Ascii.eqb_eq in F2. subst d. exists c, m1, (lit "."), m3.
    split; [reflexivity|]. split; [exact F1|]. split; [exact F3 | now right].
Qed.

(** A numeric value followed by a percent sign is matched, whole. *)
Lemma match_here_percent_complete (n post : text) :
  is_numeric n = true ->
  exists r, match_here percent_re (n ++ lit "%" ++ post) = Some r
            /\ group1 r = n.
Proof.
  intros H. apply is_numeric_shape in H.
  destruct H as (c & ds & dot & fs & -> & F & Ff & D).
  simpl in F. apply andb_true_iff in F. destruct F as [Ec F].
  unfold percent_re. rewrite match_here_plus. cbn [List.app]. rewrite Ec.
  assert (K3 : forall m, forallb is_digit m = true ->
             match_here [ {| cls := is_digit; rep := Star |};
                          {| cls := is_char "%"; rep := One |} ]
               (m ++ lit "%" ++ post)
             = Some [m; lit "%"]).
  { intros m Fm. rewrite match_here_star.
    rewrite (star_greedy _ _ m (lit "%" ++ post) [lit "%"]);
      [reflexivity | exact Fm | reflexivity | reflexivity]. }
  destruct D as [[-> ->] | ->].
  - exists [c :: ds; []; []; lit "%"]. split.
    + rewrite !app_nil_r.
      rewrite (star_greedy _ _ ds _ [[]; []; lit "%"]);
        [reflexivity | exact F | reflexivity | reflexivity].
    + unfold group1. simpl. now rewrite !app_nil_r.
  - exists [c :: ds; lit "."; fs; lit "%"]. split.
    + rewrite <- !app_assoc.
      rewrite (star_greedy _ _ ds _ [lit "."; fs; lit "%"]);
        [reflexivity | exact F | reflexivity |].
      rewrite match_here_opt.
      change (lit "." ++ fs ++ lit "%" ++ post)
        with ("."%char :: fs ++ lit "%" ++ post).
      change (is_char "." ".") with true. cbv iota.
      now rewrite (K3 fs Ff).
    + unfold group1. simpl. now rewrite !app_nil_r.
Qed.

End PercentPattern.

(** ** Searching *)

Section Leftmost.

Variable its : list item.

Lemma search_some (s : text) (r : list text) :
  search its s = Some r ->
  exists pre suf,
    s = pre ++ suf /\ match_here its suf = Some r
    /\ forall pre' suf', s = pre' ++ suf' ->
         (List.length pre' < List.length pre)%nat ->
         match_here its suf' = None.
Proof.
  induction s as [|c s IH]; simpl.
  - destruct (match_here its []) as [r'|] eqn:E; [|discriminate].
    intros H. injection H as <-. exists [], [].
    split; [reflexivity|]. split; [exact E|]. simpl. intros; lia.
  - destruct (match_here its (c :: s)) as [r'|] eqn:E.
    + intros H. injection H as <-. exists [], (c :: s).
      split; [reflexivity|]. split; [exact E|]. simpl. intros; lia.
    + intros H. destruct (IH H) as (pre & suf & -> & M & Min).
      exists (c :: pre), suf. split; [reflexivity|]. split; [exact M|].
      intros [|c' pre'] suf' Es L; simpl in Es.
      * now subst suf'.
      * injection Es as _ Es. apply (Min pre' suf' Es). simpl in L. lia.
Qed.

Lemma search_none (s : text) :
  search its s = None ->
  forall pre suf, s = pre ++ suf -> match_here its suf = None.
Proof.
  induction s as [|c s IH]; simpl.
  - destruct (match_here its []) eqn:E; [discriminate|].
    intros _ [|? ?] suf Es; simpl in Es; [now subst suf | discriminate].
  - destruct (match_here its (c :: s)) eqn:E; [discriminate|].
    intros H [|c' pre] suf Es; simpl in Es.
    + now subst suf.
    + injection Es as _ Es. now apply (IH H pre).
Qed.

End Leftmost.

Section PercentSearch.

(** [re.search] finds the first numeric value followed by a percent
    sign, when there is one. *)
Lemma search_percent_first (s pre n : text) :
  percent_at s pre n ->
  exists r pre0,
    search percent_re s = Some r /\ percent_at s pre0 (group1 r)
    /\ forall pre' n', percent_at s pre' n' ->
         (List.length pre0 <= List.length pre')%nat.
Proof.
  intros (Hn & post & Es).
  destruct (search percent_re s) as [r|] eqn:E.
  - destruct (search_some _ _ _ E) as (pre0 & suf & Ep & M & Min).
    destruct (match_here_percent_sound _ _ M) as (Hg & post0 & ->).
    exists r, pre0. split; [reflexivity|].
    split; [split; [exact Hg | now exists post0]|].
    intros pre' n' (Hn' & post' & Es').
    destruct (Nat.le_gt_cases (List.length pre0) (List.length pre'))
      as [L|L]; [exact L|].
    destruct (match_here_percent_complete n' post' Hn') as (r' & Er & _).
    rewrite (Min pre' _ Es' L) in Er. discriminate.
  - destruct (match_here_percent_complete n post Hn) as (r' & Er & _).
    rewrite (search_none _ _ E pre _ Es) in Er. discriminate.
Qed.

Lemma search_percent_none (s : text) :
  search percent_re s = None <-> forall pre n, ~ percent_at s pre n.
Proof.
  split.
  - intros E pre n H.
    destruct (search_percent_first _ _ _ H) as (r & _ & Er & _). congruence.
  - intros N. destruct (search percent_re s) as [r|] eqn:E; [|reflexivity].
    destruct (search_some _ _ _ E) as (pre0 & suf & Ep & M & _).
    destruct (match_here_percent_sound _ _ M) as (Hg & post0 & ->).
    exfalso. apply (N pre0 (group1 r)). split; [exact Hg | now exists post0].
Qed.

End PercentSearch.

(** ** [float] *)

Section Float.

Lemma digit_val_nonneg (c : ascii) : is_digit c = true -> 0 <= digit_val c.
Proof.
  unfold is_digit, digit_val. intros H.
  apply andb_true_iff in H. destruct H as [H _].
  apply Nat.leb_le in H. lia.
Qed.

Lemma digits_val_nonneg (ds : text) :
  forallb is_digit ds = true -> 0 <= digits_val ds.
Proof.
  unfold digits_val.
  assert (G : forall acc, 0 <= acc -> forallb is_digit ds = true ->
                0 <= fold_left (fun a c => 10 * a + digit_val c) ds acc).
  { induction ds as [|c ds IH]; intros acc A F; cbn [fold_left]; [exact A|].
    cbn [forallb] in F. apply andb_true_iff in F. destruct F as [Ec F].
    apply IH; [|exact F]. pose proof (digit_val_nonneg c Ec). lia. }
  now apply G.
Qed.

Lemma float_nonneg (s : text) (q : Q) : float s = Some q -> (0 <= q)%Q.
Proof.
  unfold float. destruct (span_digits s) as [ds rest] eqn:E.
  destruct (span_digits_spec _ _ _ E) as (_ & F & _).
  destruct ds as [|c ds]; [discriminate|].
  destruct rest as [|d fs].
  - intros H. injection H as <-. unfold Qle. cbn [Qnum Qden].
    pose proof (digits_val_nonneg _ F). lia.
  - destruct (is_char "." d && forallb is_digit fs) eqn:G; [|discriminate].
    apply andb_true_iff in G. destruct G as [_ Ff].
    intros H. injection H as <-. unfold Qle. cbn [Qnum Qden].
    assert (0 <= digits_val ((c :: ds) ++ fs)).
    { apply digits_val_nonneg. rewrite forallb_app. now rewrite F, Ff. }
    cbn [List.app] in *. lia.
Qed.

(** [float] does not raise on a numeric value. *)
Lemma float_numeric (n : text) :
  is_numeric n = true -> exists q, float n = Some q.
Proof.
  unfold is_numeric, float. destruct (span_digits n) as [[|c ds] [|d fs]];
    try discriminate.
  - intros _. eexists. reflexivity.
  - intros ->. eexists. reflexivity.
Qed.

End Float.

(** ** Occurrences in the stripped line *)

Section Stripped.

Lemma digit_not_space (c : ascii) : is_digit c = true -> is_space c = false.
Proof.
  unfold is_digit, is_space. intros H.
  apply andb_true_iff in H. destruct H as [L U].
  apply Nat.leb_le in L. apply Nat.leb_le in U.
  repeat match goal with
         | |- context [(?a <=? ?b)%nat] => destruct (Nat.leb_spec a b)
         | |- context [(?a =? ?b)%nat] => destruct (Nat.eqb_spec a b)
         end; try reflexivity; lia.
Qed.

Lemma solid_percent (n : text) : is_numeric n = true -> solid (n ++ lit "%").
Proof.
  intros H. apply is_numeric_shape in H.
  destruct H as (c & ds & dot & fs & -> & F & _).
  simpl in F. apply andb_true_iff in F. destruct F as [Ec _].
  exists c, ((ds ++ dot ++ fs) ++ lit "%"), "%"%char.
  split; [reflexivity|]. split.
  - change (lit "%") with ["%"%char]. now rewrite removelast_last.
  - split; [now apply digit_not_space | reflexivity].
Qed.

Lemma solid_download_marker : solid download_marker.
Proof.
  exists "["%char, (lit "download]"), "]"%char. now repeat split.
Qed.

Lemma solid_merge_marker : solid merge_marker.
Proof.
  exists "M"%char, (lit "erging formats"), "s"%char. now repeat split.
Qed.

Lemma solid_percent_sign : solid (lit "%").
Proof.
  exists "%"%char, [], "%"%char. now repeat split.
Qed.

(** The occurrences in a line are those of the stripped line, moved by
    the white space in front. *)
Lemma percent_at_strip (line a b pre n : text) :
  line = a ++ strip line ++ b -> spaces a -> spaces b ->
  (percent_at line pre n <->
   exists pre', pre = a ++ pre' /\ percent_at (strip line) pre' n).
Proof.
  intros E Sa Sb. split.
  - intros (Hn & post & Es).
    assert (Es' : a ++ strip line ++ b = pre ++ (n ++ lit "%") ++ post).
    { rewrite <- E, Es. now rewrite <- app_assoc. }
    destruct (solid_inside _ _ _ _ _ _ Es' Sa Sb (solid_percent n Hn))
      as (p' & q' & -> & -> & Em).
    exists p'. split; [reflexivity|]. split; [exact Hn|].
    exists q'. rewrite Em. now rewrite <- app_assoc.
  - intros (pre' & -> & Hn & post & Es). split; [exact Hn|].
    exists (post ++ b). rewrite E at 1. rewrite Es.
    now rewrite <- !app_assoc.
Qed.

End Stripped.

(** ** The claims about the extractor *)

(** The tests of [extract] see the same markers in the line as in the
    stripped line. *)
Lemma extract_guards (line : text) :
  extract line
  = if contains download_marker line && contains (lit "%") line then
      match search percent_re (strip line) with
      | Some percent_match =>
          match float (group1 percent_match) with
          | Some p => Some {| percent := Some p; stage := Downloading |}
          | None => None
          end
      | None => None
      end
    else if contains merge_marker line then
      Some {| percent := None; stage := Merging |}
    else None.
Proof.
  unfold extract.
  rewrite (contains_strip _ line solid_download_marker).
  rewrite (contains_strip _ line solid_percent_sign).
  rewrite (contains_strip _ line solid_merge_marker).
  reflexivity.
Qed.

(** C5.  On a line with the download marker and a numeric value
    followed by a percent sign, [extract] reports [Downloading] with the
    value of the first such numeric value [n] (no other one starts
    further left); the line of the spec gives 45.3. *)
Theorem extract_downloading :
  (forall line, downloading_rule line ->
     exists pre n q,
       percent_at line pre n
       /\ (forall pre' n', percent_at line pre' n' ->
             (List.length pre <= List.length pre')%nat)
       /\ float n = Some q
       /\ extract line = Some {| percent := Some q; stage := Downloading |})
  /\ extract progress_line
     = Some {| percent := Some 45.3%Q; stage := Downloading |}.
Proof.
  split; [|vm_compute; reflexivity].
  intros line [Hm (pre & n & Hocc)].
  destruct (strip_spec line) as (a & b & E & Sa & Sb).
  pose proof (percent_at_strip line a b) as T.
  destruct (proj1 (T pre n E Sa Sb) Hocc) as (pre' & -> & Hocc').
  destruct (search_percent_first _ _ _ Hocc') as (r & pre0 & Es & Hat & Min).
  destruct (float_numeric _ (proj1 Hat)) as [q Eq].
  exists (a ++ pre0), (group1 r), q.
  split; [apply (T _ _ E Sa Sb); now exists pre0|].
  split.
  - intros pre2 n2 H2.
    destruct (proj1 (T pre2 n2 E Sa Sb) H2) as (p2 & -> & H2').
    rewrite !length_app. specialize (Min p2 n2 H2'). lia.
  - split; [exact Eq|].
    rewrite extract_guards, Hm, Es, Eq.
    destruct Hocc as (_ & post & El).
    assert (C : contains (lit "%") line = true).
    { apply contains_spec. exists ((a ++ pre') ++ n), post.
      rewrite El at 1. now rewrite <- !app_assoc. }
    now rewrite C.
Qed.

Lemma extract_downloading_witness :
  downloading_rule progress_line
  /\ exists pre n q,
       percent_at progress_line pre n
       /\ (forall pre' n', percent_at progress_line pre' n' ->
             (List.length pre <= List.length pre')%nat)
       /\ float n = Some q
       /\ extract progress_line
          = Some {| percent := Some q; stage := Downloading |}.
Proof.
  assert (R : downloading_rule progress_line).
  { split; [reflexivity|].
    exists (lit "[download]  "), (lit "45.3").
    split; [reflexivity|]. now exists (lit " of 10MiB"). }
  split; [exact R|].
  exact (proj1 extract_downloading progress_line R).
Defined.

(** C6, as the spec has it, fails on a line that holds the download
    marker, a percent sign without a number in front, and the merge
    marker: the first test of the loop takes the line, finds no match
    and reports nothing. *)
Lemma stuck_line_is_silent :
  ~ downloading_rule stuck_line
  /\ contains merge_marker stuck_line = true
  /\ extract stuck_line = None.
Proof.
  split; [|split; reflexivity].
  intros [_ (pre & n & H)].
  assert (E : search percent_re stuck_line = None) by reflexivity.
  exact (proj1 (search_percent_none _) E pre n H).
Qed.

(** C6, amended.  On a line that does not satisfy the downloading rule:
    when the line does not hold both the download marker and a percent
    sign and holds the merge marker, [extract] reports [Merging] with
    no percent; in every other case it reports nothing; and the
    displayed percent stays as it was. *)
Theorem extract_without_percentage (line : text) :
  ~ downloading_rule line ->
  (contains download_marker line && contains (lit "%") line = false ->
   contains merge_marker line = true ->
   extract line = Some {| percent := None; stage := Merging |})
  /\ (contains download_marker line && contains (lit "%") line = true
      \/ contains merge_marker line = false ->
      extract line = None)
  /\ forall d, progress_var (on_line d line) = progress_var d.
Proof.
  intros NR.
  assert (G : contains download_marker line && contains (lit "%") line = true
              -> extract line = None).
  { intros Hg. rewrite extract_guards, Hg.
    apply andb_true_iff in Hg. destruct Hg as [Hm _].
    destruct (strip_spec line) as (a & b & E & Sa & Sb).
    assert (N : search percent_re (strip line) = None).
    { apply search_percent_none. intros pre n H. apply NR.
      split; [exact Hm|]. exists (a ++ pre), n.
      apply (percent_at_strip line a b _ n E Sa Sb). now exists pre. }
    now rewrite N. }
  split; [|split].
  - intros Hg Hm. now rewrite extract_guards, Hg, Hm.
  - intros [Hg|Hm]; [now apply G|].
    destruct (contains download_marker line && contains (lit "%") line)
      eqn:Hg; [now apply G|].
    now rewrite extract_guards, Hg, Hm.
  - intros d. unfold on_line.
    destruct (contains download_marker line && contains (lit "%") line)
      eqn:Hg.
    + now rewrite (G eq_refl).
    + rewrite extract_guards, Hg.
      now destruct (contains merge_marker line).
Qed.

Lemma extract_without_percentage_witness :
  ~ downloading_rule merger_line
  /\ extract merger_line = Some {| percent := None; stage := Merging |}.
Proof.
  assert (N : ~ downloading_rule merger_line).
  { intros [H _]. vm_compute in H. discriminate. }
  split; [exact N|].
  apply (proj1 (extract_without_percentage merger_line N)); reflexivity.
Defined.

(** C7, as the spec has it, fails above 100: the pattern takes any run
    of digits. *)
Lemma overfull_line_percent :
  extract overfull_line
  = Some {| percent := Some 250%Q; stage := Downloading |}
  /\ ~ (0 <= 250 <= 100)%Q.
Proof.
  split; [vm_compute; reflexivity|].
  intros [_ H]. vm_compute in H. now apply H.
Qed.

(** C7, amended.  A percent that [extract] reports is not negative. *)
Theorem extract_percent_nonnegative (line : text) (dp : DownloadProgress)
  (q : Q) :
  extract line = Some dp -> percent dp = Some q -> (0 <= q)%Q.
Proof.
  unfold extract.
  destruct (_ && _).
  - destruct (search percent_re (strip line)) as [m|]; [|discriminate].
    destruct (float (group1 m)) as [p|] eqn:Ef; [|discriminate].
    intros H. injection H as <-. simpl. intros H. injection H as <-.
    exact (float_nonneg _ _ Ef).
  - destruct (contains merge_marker (strip line)); [|discriminate].
    intros H. injection H as <-. discriminate.
Qed.

Lemma extract_percent_nonnegative_witness : (0 <= 45.3)%Q.
Proof.
  apply (extract_percent_nonnegative progress_line
           {| percent := Some 45.3%Q; stage := Downloading |} 45.3%Q).
  - vm_compute. reflexivity.
  - reflexivity.
Defined.

(** * Properties of the download guard *)

(** C10, as the spec has it, fails when the URL field is empty while a
    download runs: the request is turned down by the first test of
    [download_video], with its warning. *)
Lemma busy_without_url_warns :
  download_active busy_without_url = true
  /\ download_video busy_without_url
     = (busy_without_url,
        [ShowWarning "Warning" "Please select a quality and enter URL!"])
  /\ snd (download_video busy_without_url)
     <> [ShowInfo "Info" "Download already in progress!"].
Proof.
  split; [reflexivity|]. split; [reflexivity|].
  vm_compute. discriminate.
Qed.

(** C10, amended.  While a download is active a request starts no
    thread and leaves every field, the running thread included, as it
    was.  It is answered with the already-in-progress message when a
    quality and a URL are set, and with the missing-input warning
    otherwise. *)
Theorem download_video_while_active (a : app) :
  download_active a = true ->
  fst (download_video a) = a
  /\ ~ In ThreadStart (snd (download_video a))
  /\ (empty (quality_var a) = false -> empty (url_var a) = false ->
      snd (download_video a)
      = [ShowInfo "Info" "Download already in progress!"])
  /\ (empty (quality_var a) = true \/ empty (url_var a) = true ->
      snd (download_video a)
      = [ShowWarning "Warning" "Please select a quality and enter URL!"]).
Proof.
  intros Act. unfold download_video. rewrite Act.
  destruct (empty (quality_var a)), (empty (url_var a)); simpl;
    (split; [reflexivity|]);
    (split; [intros [H|[]]; discriminate|]);
    (split; [intros; congruence | intros [H|H]; congruence]).
Qed.

Lemma download_video_while_active_witness :
  download_active busy = true
  /\ fst (download_video busy) = busy
  /\ snd (download_video busy)
     = [ShowInfo "Info" "Download already in progress!"].
Proof.
  assert (A : download_active busy = true) by reflexivity.
  split; [exact A|].
  destruct (download_video_while_active busy A) as (S & _ & I & _).
  split; [exact S|].
  apply I; reflexivity.
Defined.

(** * Further properties of the format resolver *)

Section DictMore.

Lemma dict_mem_In (k : string) (m : dict) :
  dict_mem k m = true <-> In k (map fst m).
Proof.
  unfold dict_mem. induction m as [|[k' v] m IH]; simpl.
  - split; [discriminate | tauto].
  - destruct (String.eqb_spec k k') as [->|N].
    + split; [now left | reflexivity].
    + rewrite IH. split; [now right | intros [E|I]; congruence].
Qed.

Lemma In_dict_get (k : string) (m : dict) (e : entry) :
  NoDup (map fst m) -> In (k, e) m -> dict_get k m = Some e.
Proof.
  induction m as [|[k' v] m IH]; simpl; [tauto|].
  intros ND [E|I].
  - injection E as -> ->. now rewrite String.eqb_refl.
  - inversion ND as [|? ? NI ND']; subst.
    destruct (String.eqb_spec k k') as [->|N].
    + exfalso. apply NI. now apply (in_map fst) in I.
    + now apply IH.
Qed.

Lemma dict_set_In_other (k : string) (v : entry) (m : dict) (k' : string)
  (e : entry) :
  NoDup (map fst m) -> In (k', e) (dict_set k v m) ->
  (k' = k /\ e = v) \/ (k' <> k /\ In (k', e) m).
Proof.
  induction m as [|[k0 v0] m IH]; simpl; intros ND.
  - intros [E|[]]. injection E as <- <-. now left.
  - inversion ND as [|? ? NI ND']; subst.
    destruct (String.eqb_spec k k0) as [->|N]; simpl.
    + intros [E|I]; [injection E as <- <-; now left|].
      right. split; [|now right].
      intros ->. apply NI. now apply (in_map fst) in I.
    + intros [E|I].
      * injection E as <- <-. right. split; [congruence | now left].
      * destruct (IH ND' I) as [L|[R1 R2]]; [now left|].
        right. split; [exact R1 | now right].
Qed.

End DictMore.

Section KeepMax.

Variable cls : fmt -> bool.
Variable get : option entry -> Q.
Variable mk : fmt -> Z -> entry.

Hypothesis get_mk : forall f h, get (Some (mk f h)) = or0 (tbr f).

Lemma keep_max_holds_best (seen : list fmt) (m : dict) (f : fmt) :
  holds_best cls mk seen m ->
  holds_best cls mk (seen ++ [f]) (keep_max cls get mk m f).
Proof.
  intros (ND & B & K).
  assert (Skip : forall m',
             m' = m ->
             (cls f = true -> forall h, truthy_height f = Some h ->
                exists f0, In (quality_key h, mk f0 h) m
                           /\ (or0 (tbr f) <= or0 (tbr f0))%Q) ->
             holds_best cls mk (seen ++ [f]) m').
  { intros m' -> Hf. split; [exact ND|]. split.
    - intros k e I. destruct (B k e I) as (f0 & h & I0 & C0 & H0 & -> & -> & M).
      exists f0, h. repeat split; auto; [apply in_or_app; now left|].
      intros g Ig Cg Hg. apply in_app_or in Ig.
      destruct Ig as [Ig|[<-|[]]]; [now apply M|].
      destruct (Hf Cg h Hg) as (f1 & I1 & L1).
      pose proof (In_dict_get _ _ _ ND I) as G0.
      pose proof (In_dict_get _ _ _ ND I1) as G1.
      rewrite G0 in G1. injection G1 as E1.
      apply (f_equal (fun e => get (Some e))) in E1.
      rewrite !get_mk in E1. now rewrite E1.
    - intros g h Ig Cg Hg. apply in_app_or in Ig.
      destruct Ig as [Ig|[<-|[]]]; [now apply (K g)|].
      destruct (Hf Cg h Hg) as (f1 & I1 & _).
      now apply (in_map fst) in I1. }
  unfold keep_max. destruct (cls f) eqn:Cf; [|apply Skip; [reflexivity|]].
  2:{ intros; discriminate. }
  destruct (truthy_height f) as [h|] eqn:Hf; [|apply Skip; [reflexivity|]].
  2:{ intros; discriminate. }
  destruct (dict_mem (quality_key h) m) eqn:Em; simpl.
  - apply dict_mem_In in Em. apply in_map_iff in Em.
    destruct Em as ([k0 e0] & Ek & I0). simpl in Ek. subst k0.
    destruct (B _ _ I0) as (f0 & h0 & If0 & C0 & H0 & Eh & -> & M).
    apply quality_key_inj in Eh. subst h0.
    rewrite (In_dict_get _ _ _ ND I0), get_mk.
    destruct (Qgtb (or0 (tbr f)) (or0 (tbr f0))) eqn:Eg.
    + apply Qgtb_true in Eg.
      split; [now apply dict_set_NoDup|]. split.
      * intros k e I.
        destruct (dict_set_In_other _ _ _ _ _ ND I)
          as [[-> ->]|[Nk I']].
        -- exists f, h. repeat split; auto; [apply in_or_app; right; now left|].
           intros g Ig Cg Hg. apply in_app_or in Ig.
           destruct Ig as [Ig|[<-|[]]]; [|apply Qle_refl].
           apply Qle_trans with (or0 (tbr f0)); [now apply M|].
           now apply Qlt_le_weak.
        -- destruct (B k e I') as (f1 & h1 & I1 & C1 & H1 & -> & -> & M1).
           exists f1, h1.
           repeat split; auto; [apply in_or_app; now left|].
           intros g Ig Cg Hg. apply in_app_or in Ig.
           destruct Ig as [Ig|[<-|[]]]; [now apply M1|].
           rewrite Hf in Hg. injection Hg as <-. congruence.
      * intros g h1 Ig Cg Hg. apply dict_set_keys.
        apply in_app_or in Ig. destruct Ig as [Ig|[<-|[]]].
        -- right. now apply (K g).
        -- left. congruence.
    + apply Qgtb_false in Eg. apply Skip; [reflexivity|].
      intros _ h1 Hg. injection Hg as <-.
      now exists f0.
  - split; [now apply dict_set_NoDup|]. split.
    + intros k e I.
      destruct (dict_set_In_other _ _ _ _ _ ND I) as [[-> ->]|[Nk I']].
      * exists f, h. repeat split; auto; [apply in_or_app; right; now left|].
        intros g Ig Cg Hg. apply in_app_or in Ig.
        destruct Ig as [Ig|[<-|[]]]; [|apply Qle_refl].
        exfalso. apply (K g h Ig Cg) in Hg.
        apply dict_mem_In in Hg. congruence.
      * destruct (B k e I') as (f1 & h1 & I1 & C1 & H1 & -> & -> & M1).
        exists f1, h1. repeat split; auto; [apply in_or_app; now left|].
        intros g Ig Cg Hg. apply in_app_or in Ig.
        destruct Ig as [Ig|[<-|[]]]; [now apply M1|].
        rewrite Hf in Hg. injection Hg as <-. congruence.
    + intros g h1 Ig Cg Hg. apply dict_set_keys.
      apply in_app_or in Ig. destruct Ig as [Ig|[<-|[]]].
      * right. now apply (K g).
      * left. congruence.
Qed.

Lemma fold_keep_max_holds_best (l seen : list fmt) (m : dict) :
  holds_best cls mk seen m ->
  holds_best cls mk (seen ++ l) (fold_left (keep_max cls get mk) l m).
Proof.
  revert seen m. induction l as [|f l IH]; intros seen m H; simpl.
  - now rewrite app_nil_r.
  - replace (seen ++ f :: l) with ((seen ++ [f]) ++ l)
      by (now rewrite <- app_assoc).
    apply IH. now apply keep_max_holds_best.
Qed.

End KeepMax.

Section Labels.

Variable formats : list fmt.

Lemma process_format_keeps_keys (m : dict) (f : fmt) (k : string) :
  In k (map fst m) -> In k (map fst (process_format formats m f)).
Proof.
  intros I. unfold process_format.
  repeat match goal with
         | |- context [if ?b then _ else _] => destruct b
         | |- context [match ?o with Some _ => _ | None => _ end] =>
             destruct o
         end; try exact I; apply dict_set_keys; now right.
Qed.

Lemma audio_only_found (a : fmt) :
  In a formats -> audio_only a = true ->
  exists b, find_best_audio formats = Some b.
Proof.
  intros Ia Aa. pose proof (find_best_audio_spec formats) as B.
  destruct (find_best_audio formats) as [b|]; [now exists b|].
  simpl in B. rewrite (B a Ia) in Aa. discriminate.
Qed.

Lemma process_format_stores (m : dict) (f : fmt) (h : Z) :
  yields formats f h ->
  In (quality_key h) (map fst (process_format formats m f)).
Proof.
  intros (_ & Hh & C). unfold process_format. rewrite Hh.
  assert (G : forall e (b : bool),
             In (quality_key h)
               (map fst (if negb (dict_mem (quality_key h) m) || b
                         then dict_set (quality_key h) e m else m))).
  { intros e b. destruct (dict_mem (quality_key h) m) eqn:Em; simpl.
    - apply dict_mem_In in Em.
      destruct b; [apply dict_set_keys; now left | exact Em].
    - apply dict_set_keys. now left. }
  destruct C as [Va|[Vo (a & Ia & Aa)]].
  - rewrite Va. apply G.
  - assert (Va : video_with_audio f = false).
    { revert Vo. unfold video_with_audio, video_only, not_none.
      destruct (is_none (vcodec f)), (is_none (acodec f)); simpl; congruence. }
    rewrite Va, Vo. destruct (audio_only_found a Ia Aa) as [b ->]. apply G.
Qed.

Lemma fold_process_format_keys (done : list fmt) (m : dict) (k : string) :
  In k (map fst m)
  \/ (exists f h, In f done /\ yields formats f h /\ k = quality_key h) ->
  In k (map fst (fold_left (process_format formats) done m)).
Proof.
  revert m. induction done as [|f done IH]; intros m H; simpl.
  - destruct H as [H|(f & h & [] & _)]. exact H.
  - apply IH. destruct H as [H|(g & h & [<-|Ig] & Y & ->)].
    + left. now apply process_format_keeps_keys.
    + left. now apply process_format_stores.
    + right. now exists g, h.
Qed.

End Labels.

Lemma labels_yields (formats : list fmt) (k : string) :
  In k (labels formats)
  <-> exists f h, yields formats f h /\ k = quality_key h.
Proof.
  split.
  - intros I. apply in_map_iff in I. destruct I as ([k' e] & <- & I).
    destruct (fetch_qualities_entry _ _ _ I) as [Ek F]. simpl.
    destruct e as [f|v a h t]; simpl in F.
    + destruct F as (If & Va & Hh).
      exists f, (entry_height (Single f)).
      split; [|exact Ek]. split; [exact If|]. split; [exact Hh | now left].
    + destruct F as (f & b & If & Vo & Hh & Eb & _).
      pose proof (find_best_audio_spec formats) as B. rewrite Eb in B.
      destruct B as (Ib & Ab & _).
      exists f, h. split; [|exact Ek]. split; [exact If|].
      split; [exact Hh|]. right. split; [exact Vo | now exists b].
  - intros (f & h & Y & ->). unfold labels.
    apply (Permutation_in (l := map fst (build_quality_map formats))).
    + apply Permutation_map, Permutation_sym, sorted_desc_perm.
    + apply fold_process_format_keys. right. exists f, h.
      split; [apply Y | now split].
Qed.

(** X1.  The labels of the menu are exactly the heights of the
    descriptors that have a usable height and are combined, or are
    video-only while the list has an audio-only descriptor. *)
Theorem labels_exactly (formats : list fmt) (k : string) :
  In k (labels formats)
  <-> exists f h,
        In f formats /\ truthy_height f = Some h
        /\ (video_with_audio f = true
            \/ (video_only f = true
                /\ exists a, In a formats /\ audio_only a = true))
        /\ k = quality_key h.
Proof.
  rewrite labels_yields. unfold yields. split.
  - intros (f & h & (If & Hh & C) & Ek). exists f, h. tauto.
  - intros (f & h & If & Hh & C & Ek). exists f, h. tauto.
Qed.

Section MenuOrder.

Lemma labels_heights (formats : list fmt) :
  labels formats = map quality_key (heights formats).
Proof.
  unfold labels, heights. rewrite map_map.
  apply map_ext_in. intros [k e] I. simpl.
  now apply (fetch_qualities_entry formats).
Qed.

Lemma desc_heights (l : dict) :
  StronglySorted desc l ->
  StronglySorted (fun a b => b <= a)
    (map (fun x => entry_height (snd x)) l).
Proof.
  intros S. induction S as [|x l S IH F]; simpl; constructor; [exact IH|].
  rewrite Forall_forall in *. intros z Iz.
  apply in_map_iff in Iz. destruct Iz as (y & <- & Iy).
  exact (F y Iy).
Qed.

Lemma sorted_NoDup_strict (l : list Z) :
  StronglySorted (fun a b => b <= a) l -> NoDup l ->
  StronglySorted (fun a b => b < a) l.
Proof.
  intros S. induction S as [|x l S IH F]; intros ND; constructor.
  - apply IH. now inversion ND.
  - inversion ND as [|? ? NI _]; subst.
    rewrite Forall_forall in *. intros z Iz.
    specialize (F z Iz). simpl in F.
    assert (z <> x) by (intros ->; contradiction). lia.
Qed.

Lemma heights_strict (formats : list fmt) :
  StronglySorted (fun a b => b < a) (heights formats).
Proof.
  apply sorted_NoDup_strict.
  - apply desc_heights, sorted_desc_sorted.
  - apply (NoDup_map_inv quality_key). rewrite <- labels_heights.
    unfold labels, fetch_qualities.
    apply (Permutation_NoDup
             (l := map fst (build_quality_map formats))).
    + apply Permutation_map, Permutation_sym, sorted_desc_perm.
    + apply (build_quality_map_well_formed formats).
Qed.

Lemma strictly_sorted_unique (l1 l2 : list Z) :
  StronglySorted (fun a b => b < a) l1 ->
  StronglySorted (fun a b => b < a) l2 ->
  (forall x, In x l1 <-> In x l2) -> l1 = l2.
Proof.
  intros S1. revert l2.
  induction S1 as [|x l1 S1 IH F1]; intros l2 S2 E.
  - destruct l2 as [|y l2]; [reflexivity|].
    exfalso. apply (proj2 (E y)). now left.
  - destruct S2 as [|y l2 S2 F2].
    + exfalso. apply (proj1 (E x)). now left.
    + rewrite Forall_forall in F1, F2.
      assert (x = y).
      { destruct (proj1 (E x) (or_introl eq_refl)) as [Hy|Hy];
          [now symmetry|].
        destruct (proj2 (E y) (or_introl eq_refl)) as [Hx|Hx]; [exact Hx|].
        specialize (F1 y Hx). specialize (F2 x Hy). lia. }
      subst y. f_equal. apply IH; [exact S2|].
      intros z. split; intros Iz.
      * destruct (proj1 (E z) (or_intror Iz)) as [Ez|I]; [|exact I].
        subst z. specialize (F1 x Iz). lia.
      * destruct (proj2 (E z) (or_intror Iz)) as [Ez|I]; [|exact I].
        subst z. specialize (F2 x Iz). lia.
Qed.

End MenuOrder.

(** X2.  The labels of the menu, and their order, do not depend on the
    order of the descriptors (the selections behind the labels do). *)
Theorem labels_of_permutation (l l' : list fmt) :
  Permutation l l' -> labels l = labels l'.
Proof.
  intros P. rewrite !labels_heights. f_equal.
  apply strictly_sorted_unique; try apply heights_strict.
  assert (G : forall a b, Permutation a b ->
                forall x, In x (heights a) -> In x (heights b)).
  { intros a b Pab x Ix.
    apply (in_map quality_key) in Ix. rewrite <- labels_heights in Ix.
    apply labels_yields in Ix.
    destruct Ix as (f & h & (If & Hh & C) & Ek).
    assert (Ib : In (quality_key x) (labels b)).
    { apply labels_yields. exists f, h. split; [|exact Ek].
      split; [now apply (Permutation_in _ Pab)|]. split; [exact Hh|].
      destruct C as [Va|[Vo (a0 & Ia & Aa)]]; [now left|].
      right. split; [exact Vo|]. exists a0.
      split; [now apply (Permutation_in _ Pab) | exact Aa]. }
    rewrite labels_heights in Ib. apply in_map_iff in Ib.
    destruct Ib as (y & Ey & Iy). apply quality_key_inj in Ey. now subst y. }
  intros x. split; [apply (G l l' P) | apply (G l' l), Permutation_sym, P].
Qed.

Lemma labels_of_permutation_witness :
  labels [video_1080; combined_1080; audio_128]
  = labels [combined_1080; video_1080; audio_128].
Proof.
  apply labels_of_permutation, perm_swap.
Defined.

Section HighestBitrate.

Variable formats : list fmt.

Lemma fold_left_ext_in (F G : dict -> fmt -> dict) (l : list fmt) (m : dict) :
  (forall m' f, In f l -> F m' f = G m' f) ->
  fold_left F l m = fold_left G l m.
Proof.
  revert m. induction l as [|f l IH]; intros m H; simpl; [reflexivity|].
  rewrite (H m f (or_introl eq_refl)). apply IH.
  intros m' g Ig. apply H. now right.
Qed.

Lemma holds_best_nil (cls : fmt -> bool) (mk : fmt -> Z -> entry) :
  holds_best cls mk [] [].
Proof.
  split; [constructor|]. split; [intros k e []|intros g h []].
Qed.

Lemma kinds_exclusive (f : fmt) :
  video_with_audio f = true -> video_only f = false.
Proof.
  unfold video_with_audio, video_only, not_none.
  destruct (is_none (vcodec f)), (is_none (acodec f)); simpl; congruence.
Qed.

(** When no pair can be stored, the loop is the keep-the-largest loop
    over the combined descriptors. *)
Lemma process_format_combined (m : dict) (f : fmt) :
  (find_best_audio formats = None
   \/ (video_only f = true -> truthy_height f = None)) ->
  process_format formats m f
  = keep_max video_with_audio get_tbr (fun f _ => Single f) m f.
Proof.
  intros H. unfold process_format, keep_max.
  destruct (video_with_audio f); [reflexivity|].
  destruct (video_only f); [|reflexivity].
  destruct H as [-> | H].
  - now destruct (truthy_height f).
  - now rewrite (H eq_refl).
Qed.

(** When no combined descriptor can be stored, the loop is the
    keep-the-largest loop over the video-only descriptors. *)
Lemma process_format_pairs (b : fmt) (m : dict) (f : fmt) :
  find_best_audio formats = Some b ->
  (video_with_audio f = true -> truthy_height f = None) ->
  process_format formats m f
  = keep_max video_only get_video_tbr
      (fun f h => Paired (format_id f) (format_id b) h (or0 (tbr f))) m f.
Proof.
  intros Eb H. unfold process_format, keep_max. rewrite Eb.
  destruct (video_with_audio f) eqn:Va.
  - rewrite (H eq_refl), (kinds_exclusive f Va). reflexivity.
  - reflexivity.
Qed.

End HighestBitrate.

(** X3.  In a list where no pair can be formed (no audio-only
    descriptor, or no video-only descriptor with a usable height), every
    option is a combined descriptor whose [tbr] (0 when missing) is the
    largest among the combined descriptors of its height. *)
Theorem combined_only_keeps_highest_tbr (formats : list fmt) :
  (forall f, In f formats -> audio_only f = false)
  \/ (forall f, In f formats -> video_only f = true ->
        truthy_height f = None) ->
  forall k e, In (k, e) (fetch_qualities formats) ->
    exists f h,
      e = Single f /\ In f formats /\ video_with_audio f = true
      /\ truthy_height f = Some h /\ k = quality_key h
      /\ forall g, In g formats -> video_with_audio g = true ->
           truthy_height g = Some h -> (or0 (tbr g) <= or0 (tbr f))%Q.
Proof.
  intros H k e I. apply fetch_qualities_In in I.
  assert (E : build_quality_map formats
              = fold_left
                  (keep_max video_with_audio get_tbr (fun f _ => Single f))
                  formats []).
  { apply fold_left_ext_in. intros m f If. apply process_format_combined.
    destruct H as [H|H]; [left | right; now apply H].
    pose proof (find_best_audio_spec formats) as B.
    destruct (find_best_audio formats) as [b|]; [|reflexivity].
    destruct B as (Ib & Ab & _). rewrite (H b Ib) in Ab. discriminate. }
  rewrite E in I.
  destruct (fold_keep_max_holds_best video_with_audio get_tbr
              (fun f _ => Single f) (fun _ _ => eq_refl) formats [] []
              (holds_best_nil _ _)) as (_ & B & _).
  destruct (B k e I) as (f & h & If & Cf & Hf & Ek & Ee & M).
  exists f, h. repeat split; assumption.
Qed.

Lemma combined_only_keeps_highest_tbr_witness :
  exists f h,
    Single combined_720 = Single f /\ In f [combined_720; combined_1080]
    /\ video_with_audio f = true
    /\ truthy_height f = Some h /\ "720p" = quality_key h
    /\ forall g, In g [combined_720; combined_1080] ->
         video_with_audio g = true ->
         truthy_height g = Some h -> (or0 (tbr g) <= or0 (tbr f))%Q.
Proof.
  apply (combined_only_keeps_highest_tbr [combined_720; combined_1080]).
  - left. intros f [<-|[<-|[]]]; reflexivity.
  - vm_compute. right. now left.
Defined.

(** X4.  In a list where no combined descriptor has a usable height,
    every option pairs the best audio descriptor with a video-only
    descriptor whose [tbr] (0 when missing) is the largest among the
    video-only descriptors of its height. *)
Theorem pairs_only_keep_highest_tbr (formats : list fmt) :
  (forall f, In f formats -> video_with_audio f = true ->
     truthy_height f = None) ->
  forall k e, In (k, e) (fetch_qualities formats) ->
    exists f b h,
      e = Paired (format_id f) (format_id b) h (or0 (tbr f))
      /\ find_best_audio formats = Some b
      /\ In f formats /\ video_only f = true
      /\ truthy_height f = Some h /\ k = quality_key h
      /\ forall g, In g formats -> video_only g = true ->
           truthy_height g = Some h -> (or0 (tbr g) <= or0 (tbr f))%Q.
Proof.
  intros H k e I.
  destruct (fetch_qualities_entry _ _ _ I) as [_ F].
  apply fetch_qualities_In in I.
  destruct (find_best_audio formats) as [b|] eqn:Eb.
  - assert (E : build_quality_map formats
                = fold_left
                    (keep_max video_only get_video_tbr
                       (fun f h => Paired (format_id f) (format_id b) h
                                     (or0 (tbr f))))
                    formats []).
    { apply fold_left_ext_in. intros m f If.
      apply process_format_pairs; [exact Eb | now apply H]. }
    rewrite E in I.
    destruct (fold_keep_max_holds_best video_only get_video_tbr
                (fun f h => Paired (format_id f) (format_id b) h
                              (or0 (tbr f)))
                (fun _ _ => eq_refl) formats [] []
                (holds_best_nil _ _)) as (_ & B & _).
    destruct (B k e I) as (f & h & If & Cf & Hf & Ek & Ee & M).
    exists f, b, h. repeat split; assumption.
  - exfalso. destruct e as [f|v a h t]; simpl in F.
    + destruct F as (If & Va & Hh). rewrite (H f If Va) in Hh. discriminate.
    + destruct F as (f & b & _ & _ & _ & Eb' & _). congruence.
Qed.

Lemma pairs_only_keep_highest_tbr_witness :
  exists f b h,
    Paired "137" "140" 1080 (8000 # 1)
    = Paired (format_id f) (format_id b) h (or0 (tbr f))
    /\ find_best_audio [video_1080; audio_128] = Some b
    /\ In f [video_1080; audio_128] /\ video_only f = true
    /\ truthy_height f = Some h /\ "1080p" = quality_key h
    /\ forall g, In g [video_1080; audio_128] -> video_only g = true ->
         truthy_height g = Some h -> (or0 (tbr g) <= or0 (tbr f))%Q.
Proof.
  apply (pairs_only_keep_highest_tbr [video_1080; audio_128]).
  - intros f [<-|[<-|[]]] H; vm_compute in H; discriminate.
  - vm_compute. now left.
Defined.

(** X5.  The selector of every option names format ids of the list
    only: the id of a combined descriptor, or the id of a video-only
    descriptor joined by [+] to the id of an audio-only descriptor; and
    the label of the option is the height of that video stream. *)
Theorem selector_names_listed_formats (formats : list fmt) (k : string)
  (e : entry) :
  In (k, e) (fetch_qualities formats) ->
  (exists f h,
      In f formats /\ video_with_audio f = true
      /\ truthy_height f = Some h /\ k = quality_key h
      /\ format_selector e = format_id f)
  \/ (exists v a h,
        In v formats /\ video_only v = true
        /\ In a formats /\ audio_only a = true
        /\ truthy_height v = Some h /\ k = quality_key h
        /\ format_selector e = (format_id v ++ "+" ++ format_id a)%string).
Proof.
  intros I. destruct (fetch_qualities_entry _ _ _ I) as [Ek F].
  destruct e as [f|v a h t]; simpl in F.
  - left. destruct F as (If & Va & Hh).
    exists f, (entry_height (Single f)). repeat split; assumption.
  - right. destruct F as (f & b & If & Vo & Hh & Eb & -> & -> & _).
    pose proof (find_best_audio_spec formats) as B. rewrite Eb in B.
    destruct B as (Ib & Ab & _).
    exists f, b, h. repeat split; assumption.
Qed.

Lemma selector_names_listed_formats_witness :
  (exists f h,
      In f [combined_720] /\ video_with_audio f = true
      /\ truthy_height f = Some h /\ "720p" = quality_key h
      /\ format_selector (Single combined_720) = format_id f)
  \/ (exists v a h,
        In v [combined_720] /\ video_only v = true
        /\ In a [combined_720] /\ audio_only a = true
        /\ truthy_height v = Some h /\ "720p" = quality_key h
        /\ format_selector (Single combined_720)
           = (format_id v ++ "+" ++ format_id a)%string).
Proof.
  apply (selector_names_listed_formats [combined_720]).
  vm_compute. now left.
Defined.

(** * Properties of the dependency check and the installers *)

Module InstallerFacts.

Import Installer.

Ltac unfold_installer :=
  unfold check_dependencies, install_ffmpeg, install_ytdlp, try_except, bind,
    emit, check_call, on_called_process_error, on_failed_or_missing;
  cbn [fst snd List.app].

(** Case analysis on every answer of the machine that the goal asks
    for. *)
Ltac answers w :=
  repeat match goal with
         | |- context [w ?c] =>
             let E := fresh "E" in
             destruct (w c) as [[?|?|?]|] eqn:E; cbn [fst snd List.app]
         end.

Ltac platforms platform :=
  destruct (String.eqb platform "win32");
  [|destruct (String.eqb platform "darwin");
    [|destruct (String.prefix "linux" platform)]].

Lemma install_ffmpeg_returns (w : machine) (platform executable : string) :
  snd (install_ffmpeg w platform executable) = inr tt.
Proof.
  unfold install_ffmpeg. platforms platform;
    unfold_installer; answers w; reflexivity.
Qed.

(** X6.  [install_ffmpeg] never lets an exception escape and shows
    exactly one message box, on every platform and whatever the
    commands answer. *)
Theorem install_ffmpeg_one_dialog (w : machine)
  (platform executable : string) :
  snd (install_ffmpeg w platform executable) = inr tt
  /\ List.length (filter is_dialog (fst (install_ffmpeg w platform executable)))
     = 1%nat.
Proof.
  split; [apply install_ffmpeg_returns|].
  unfold install_ffmpeg. platforms platform;
    unfold_installer; answers w; reflexivity.
Qed.

(** X7.  [install_ffmpeg] reports success only when the last command it
    ran exited with status 0. *)
Theorem install_ffmpeg_success_after_exit_0 (w : machine)
  (platform executable title message : string) :
  In (showinfo title message) (fst (install_ffmpeg w platform executable)) ->
  exits_0 w
    (last (commands (fst (install_ffmpeg w platform executable))) []).
Proof.
  unfold install_ffmpeg. platforms platform;
    unfold_installer; answers w; cbn [In commands last];
    intros H; try assumption;
    repeat (destruct H as [H|H]; try discriminate H); contradiction.
Qed.

Lemma install_ffmpeg_success_after_exit_0_witness :
  In (showinfo "Success" "FFmpeg installed successfully via yum!")
    (fst (install_ffmpeg
            (fun c => if list_eq_dec string_dec c apt_update
                      then Some (CalledProcessError "exit status 100")
                      else None)
            "linux" "python3"))
  /\ exits_0
       (fun c => if list_eq_dec string_dec c apt_update
                 then Some (CalledProcessError "exit status 100")
                 else None)
       yum_install.
Proof.
  assert (I : In (showinfo "Success" "FFmpeg installed successfully via yum!")
                (fst (install_ffmpeg
                        (fun c => if list_eq_dec string_dec c apt_update
                                  then Some (CalledProcessError "exit status 100")
                                  else None)
                        "linux" "python3")))
    by (vm_compute; tauto).
  split; [exact I|].
  exact (install_ffmpeg_success_after_exit_0 _ _ _ _ _ I).
Defined.

Ltac decide_In :=
  cbn [In]; split; intros H;
  repeat match goal with
         | H : _ \/ _ |- _ => destruct H as [H|H]
         | H : _ /\ _ |- _ => destruct H
         | H : False |- _ => contradiction
         | H : _ = _ |- _ => discriminate H
         end;
  auto 6.

Lemma prefix_linux (release : string) :
  String.prefix "linux" ("linux" ++ release) = true.
Proof.
  simpl. now destruct release.
Qed.

(** X8.  On Linux the package managers form a chain: [yum] is run
    exactly when an [apt] command failed with [CalledProcessError], and
    [pacman] exactly when [yum] was run and failed in the same way.  Any
    other exception (say [sudo] is missing) ends the chain. *)
Theorem linux_fallback_chain (w : machine) (release executable : string) :
  let t := fst (install_ffmpeg w ("linux" ++ release) executable) in
  (In (run yum_install) t
   <-> failed (w apt_update) = true
       \/ (w apt_update = None /\ failed (w apt_install) = true))
  /\ (In (run pacman_install) t
      <-> In (run yum_install) t /\ failed (w yum_install) = true).
Proof.
  unfold install_ffmpeg.
  change (String.eqb ("linux" ++ release) "win32") with false.
  change (String.eqb ("linux" ++ release) "darwin") with false.
  rewrite prefix_linux.
  unfold_installer. cbv zeta.
  destruct (w apt_update) as [[?|?|?]|] eqn:E1;
    destruct (w apt_install) as [[?|?|?]|] eqn:E2;
    destruct (w yum_install) as [[?|?|?]|] eqn:E3;
    destruct (w pacman_install) as [[?|?|?]|] eqn:E4;
    cbn [fst snd List.app failed]; split; decide_In.
Qed.

(** X9.  On macOS the warning that Homebrew was not found is shown
    exactly when one of the two [brew] commands fails or is missing: a
    failed [brew install ffmpeg] is reported in the same words as a
    missing Homebrew. *)
Theorem macos_homebrew_warning (w : machine) (executable : string) :
  (exists message,
      In (showwarning "Homebrew Not Found" message)
        (fst (install_ffmpeg w "darwin" executable)))
  <-> failed_or_missing (w brew_version) = true
      \/ (w brew_version = None /\ failed_or_missing (w brew_install) = true).
Proof.
  unfold install_ffmpeg.
  change (String.eqb "darwin" "win32") with false.
  change (String.eqb "darwin" "darwin") with true.
  unfold_installer.
  destruct (w brew_version) as [[?|?|?]|] eqn:E1;
    destruct (w brew_install) as [[?|?|?]|] eqn:E2;
    cbn [fst snd List.app failed_or_missing]; split.
  all: try (intros [m H]; cbn [In] in H;
            repeat (destruct H as [H|H]; try discriminate H);
            try contradiction; auto; fail).
  all: intros H; destruct H as [H|[H1 H2]]; try discriminate;
    eexists; cbn [In]; auto 6.
Qed.

Lemma install_ffmpeg_not_ytdlp (w : machine) (platform executable : string) :
  ~ In (run (pip_install_ytdlp executable))
      (fst (install_ffmpeg w platform executable)).
Proof.
  unfold install_ffmpeg. platforms platform;
    unfold_installer; answers w; cbn [In]; intros H;
    repeat (destruct H as [H|H]; try discriminate H); contradiction.
Qed.

Lemma install_ffmpeg_trace (w : machine) (platform executable : string) :
  exists t, fst (install_ffmpeg w platform executable)
            = status_set "Installing FFmpeg..." :: t.
Proof.
  unfold install_ffmpeg, bind, emit. cbn [fst snd List.app].
  eexists. reflexivity.
Qed.

(** X10.  [check_dependencies] installs only what its version check
    found missing: the [pip] command for yt-dlp is run only when
    [yt-dlp --version] failed, and [install_ffmpeg] is entered only
    when [ffmpeg -version] failed. *)
Theorem check_dependencies_installs_missing_only (w : machine)
  (platform executable : string) :
  (In (run (pip_install_ytdlp executable))
     (fst (check_dependencies w platform executable)) ->
   failed_or_missing (w ytdlp_version) = true)
  /\ (In (status_set "Installing FFmpeg...")
        (fst (check_dependencies w platform executable)) ->
      failed_or_missing (w ffmpeg_version) = true).
Proof.
  pose proof (install_ffmpeg_not_ytdlp w platform executable) as N.
  destruct (install_ffmpeg_trace w platform executable) as [t Et].
  unfold check_dependencies, install_ytdlp.
  unfold try_except, bind, emit, check_call, on_called_process_error,
    on_failed_or_missing.
  cbn [fst snd List.app].
  destruct (w ytdlp_version) as [[?|?|?]|] eqn:E1;
    destruct (w (pip_install_ytdlp executable)) as [[?|?|?]|] eqn:E2;
    destruct (w ffmpeg_version) as [[?|?|?]|] eqn:E3;
    cbn [fst snd List.app failed_or_missing]; split; intros H;
    try reflexivity;
    repeat (rewrite ?in_app_iff in H; cbn [In] in H);
    repeat match goal with
           | H : _ \/ _ |- _ => destruct H as [H|H]
           | H : False |- _ => contradiction
           | H : _ = _ |- _ => discriminate H
           end;
    try contradiction.
Qed.

(** X11.  [check_dependencies], which runs in [__init__], lets an
    exception escape exactly when a version check raises something
    other than [CalledProcessError] or [FileNotFoundError], or the [pip]
    command for yt-dlp raises something other than
    [CalledProcessError]; whatever happens while ffmpeg is installed
    is caught. *)
Theorem check_dependencies_escapes (w : machine)
  (platform executable : string) :
  (exists e, snd (check_dependencies w platform executable) = inl e)
  <-> escapes w executable = true.
Proof.
  pose proof (install_ffmpeg_returns w platform executable) as R.
  unfold check_dependencies, install_ytdlp, escapes.
  unfold try_except, bind, emit, check_call, on_called_process_error,
    on_failed_or_missing.
  cbn [fst snd List.app].
  destruct (w ytdlp_version) as [[?|?|?]|] eqn:E1;
    destruct (w (pip_install_ytdlp executable)) as [[?|?|?]|] eqn:E2;
    destruct (w ffmpeg_version) as [[?|?|?]|] eqn:E3;
    cbn [fst snd List.app]; rewrite ?R; split;
    try (intros [e H]; discriminate H);
    try discriminate;
    try (intros _; eexists; reflexivity);
    try reflexivity.
Qed.

End InstallerFacts.

(** * Properties of the fetch and download handlers *)

Module SessionFacts.

Import Session.

(** The URL pattern accepts the texts that start with [http://] or
    [https://]. *)
Lemma http_re_starts_with (url : text) :
  match match_here http_re url with
  | Some _ => true
  | None => false
  end
  = starts_with (lit "http://") url || starts_with (lit "https://") url.
Proof.
  cbv [match_here http_re char cls rep is_char starts_with lit
         list_ascii_of_string option_map].
  repeat first
    [ reflexivity
    | match goal with
      | |- context [match ?u with [] => _ | _ :: _ => _ end] =>
          is_var u; destruct u
      end
    | match goal with
      | |- context [Ascii.eqb ?a ?b] => destruct (Ascii.eqb a b)
      end ].
Qed.

(** X12.  [fetch_qualities] starts the metadata query exactly for a
    URL that, stripped, starts with [http://] or [https://] in lower
    case; an empty or blank field gets the first warning, any other
    text the second. *)
Theorem fetch_starts_on_http_urls (w : window) :
  fetch_qualities_start w
  = match strip (lit (url_var (core w))) with
    | [] => FetchRejected PleaseEnterUrl
    | c :: url =>
        if starts_with (lit "http://") (c :: url)
           || starts_with (lit "https://") (c :: url)
        then FetchStarted (c :: url)
        else FetchRejected PleaseEnterValidUrl
    end.
Proof.
  unfold fetch_qualities_start.
  destruct (strip (lit (url_var (core w)))) as [|c url]; [reflexivity|].
  rewrite <- http_re_starts_with.
  now destruct (match_here http_re (c :: url)).
Qed.

Lemma head_is_highest (x : string * entry) (l : dict) :
  StronglySorted desc (x :: l) ->
  forall y, In y (x :: l) -> entry_height (snd y) <= entry_height (snd x).
Proof.
  intros S y [<-|I]; [lia|].
  inversion S as [|? ? _ F]; subst.
  rewrite Forall_forall in F. exact (F y I).
Qed.

(** X13.  After a metadata query that gives a non-empty menu, the
    quality that [update_quality_combo] selects is a key of
    [formats_data], no option of the menu is higher, the combobox
    offers exactly the keys of [formats_data], and the download button
    is enabled. *)
Theorem fetch_selects_best_quality (w : window) (title : string)
  (formats : list fmt) :
  fetch_qualities formats <> [] ->
  let w' := fst (fetch_thread w (Document title formats)) in
  formats_data (core w') = fetch_qualities formats
  /\ combo_values w' = map fst (formats_data (core w'))
  /\ download_btn w' = true
  /\ exists e,
       dict_get (quality_var (core w')) (formats_data (core w')) = Some e
       /\ forall k' e', In (k', e') (formats_data (core w')) ->
            entry_height e' <= entry_height e.
Proof.
  intros N. unfold fetch_thread. cbv zeta.
  pose proof (sorted_desc_sorted (build_quality_map formats)) as S.
  fold (fetch_qualities formats) in S.
  destruct (fetch_qualities formats) as [|[k0 e0] rest]; [congruence|].
  cbn [map fst snd update_quality_combo core set_quality_var
         set_formats_data formats_data quality_var combo_values
         download_btn dict_get].
  rewrite String.eqb_refl.
  do 3 (split; [reflexivity|]). exists e0. split; [reflexivity|].
  intros k' e' I. exact (head_is_highest _ _ S (k', e') I).
Qed.

Lemma fetch_selects_best_quality_witness :
  exists e,
    dict_get
      (quality_var
         (core (fst (fetch_thread
                       {| core := busy_without_url; combo_values := [];
                          download_btn := false |}
                       (Document "clip" [combined_720; combined_1080])))))
      (fetch_qualities [combined_720; combined_1080])
    = Some e
    /\ entry_height e = 1080.
Proof.
  destruct (fetch_selects_best_quality
              {| core := busy_without_url; combo_values := [];
                 download_btn := false |}
              "clip" [combined_720; combined_1080])
    as (F & _ & _ & e & G & _).
  - vm_compute. discriminate.
  - exists e. rewrite <- F. split; [exact G|].
    vm_compute in G. injection G as <-. reflexivity.
Defined.

(** X14.  A metadata query that gives an empty menu empties
    [formats_data] and leaves the selected quality, the combobox and
    the download button as they were.  With an earlier selection still
    in place, the next [download_video] starts a thread, and that
    thread fails on the lookup of the selection: it never starts
    yt-dlp, hands over the error, and enables the button again. *)
Theorem empty_fetch_leaves_stale_selection (w : window) (title : string)
  (formats : list fmt) (output_path : string) (p : process) :
  fetch_qualities formats = [] ->
  empty (quality_var (core w)) = false ->
  empty (url_var (core w)) = false ->
  download_active (core w) = false ->
  let w' := fst (fetch_thread w (Document title formats)) in
  formats_data (core w') = []
  /\ quality_var (core w') = quality_var (core w)
  /\ combo_values w' = combo_values w
  /\ download_btn w' = download_btn w
  /\ snd (download_video (core w')) = [ThreadStart]
  /\ download_thread_body output_path (core w') p
     = [button_state false; status_set Starting; progress_set 0%Q;
        showerror (DownloadError (KeyError (quality_var (core w))));
        status_set DownloadErrorStatus; button_state true].
Proof.
  intros E Hq Hu Ha. unfold fetch_thread. cbv zeta. rewrite E.
  cbn [map fst snd update_quality_combo core set_formats_data formats_data
         quality_var combo_values download_btn].
  do 4 (split; [reflexivity|]). split.
  - unfold download_video, download_active in *.
    cbn [quality_var url_var download_thread set_formats_data].
    now rewrite Hq, Hu, Ha.
  - unfold download_thread_body.
    cbn [quality_var formats_data dict_get set_formats_data]. reflexivity.
Qed.

Lemma empty_fetch_leaves_stale_selection_witness :
  download_thread_body "Videos/%(title)s.%(ext)s"
    (core (fst (fetch_thread
                  {| core :=
                       {| url_var := "https://example.org/v";
                          quality_var := "1080p";
                          shown := shown busy;
                          formats_data := formats_data busy;
                          download_thread := None |};
                     combo_values := ["1080p"];
                     download_btn := true |}
                  (Document "clip" [audio_128]))))
    (Exits [] 0)
  = [button_state false; status_set Starting; progress_set 0%Q;
     showerror (DownloadError (KeyError "1080p"));
     status_set DownloadErrorStatus; button_state true].
Proof.
  apply (empty_fetch_leaves_stale_selection
           {| core :=
                {| url_var := "https://example.org/v";
                   quality_var := "1080p";
                   shown := shown busy;
                   formats_data := formats_data busy;
                   download_thread := None |};
              combo_values := ["1080p"];
              download_btn := true |}
           "clip" [audio_128]); reflexivity.
Defined.

Lemma line_events_no_button (lines : list text) (b : bool) :
  ~ In (button_state b) (flat_map line_events lines).
Proof.
  induction lines as [|line lines IH]; simpl; [tauto|].
  intros H. apply in_app_or in H. destruct H as [H|H]; [|now apply IH].
  unfold line_events in H.
  destruct (extract line) as [[[q|] []]|]; simpl in H;
    repeat (destruct H as [H|H]; try discriminate H); contradiction.
Qed.

(** X15.  Whatever the state and however the process ends, the first
    thing [download_thread] hands over disables the download button,
    the last thing enables it, and nothing in between touches it. *)
Theorem download_thread_brackets_button (output_path : string) (a : app)
  (p : process) :
  exists middle,
    download_thread_body output_path a p
    = (button_state false :: middle ++ [button_state true])%list
    /\ forall b, ~ In (button_state b) middle.
Proof.
  unfold download_thread_body.
  set (m := match dict_get (quality_var a) (formats_data a) with
            | Some _ => _
            | None => _
            end).
  exists (status_set Starting :: progress_set 0%Q :: m).
  split; [reflexivity|]. subst m.
  intros b H. cbn [In] in H.
  destruct H as [H|[H|H]]; try discriminate H.
  destruct (dict_get (quality_var a) (formats_data a)) as [fi|].
  - cbn [In] in H. destruct H as [H|H]; [discriminate H|].
    destruct p as [lines rc|lines t]; apply in_app_or in H;
      destruct H as [H|H]; try (now apply line_events_no_button in H).
    + destruct (rc =? 0)%Z; cbn [In] in H;
        repeat (destruct H as [H|H]; try discriminate H); contradiction.
    + cbn [In] in H.
      repeat (destruct H as [H|H]; try discriminate H); contradiction.
  - cbn [In] in H.
    repeat (destruct H as [H|H]; try discriminate H); contradiction.
Qed.

Lemma last_progress_from (t : list event) (acc : option Q) :
  fold_left (fun acc ev => match ev with
                           | progress_set p => Some p
                           | _ => acc
                           end) t acc
  = match last_progress t with
    | Some p => Some p
    | None => acc
    end.
Proof.
  unfold last_progress. revert acc.
  induction t as [|ev t IH]; intros acc; simpl; [reflexivity|].
  rewrite IH. rewrite (IH (match ev with
                           | progress_set p => Some p
                           | _ => None
                           end)).
  destruct (fold_left _ t None); [reflexivity|].
  now destruct ev.
Qed.

Lemma last_progress_app (t1 t2 : list event) :
  last_progress (t1 ++ t2)
  = match last_progress t2 with
    | Some p => Some p
    | None => last_progress t1
    end.
Proof.
  unfold last_progress at 1. rewrite fold_left_app.
  apply last_progress_from.
Qed.

Lemma last_progress_lines (lines : list text) (d : display) :
  match last_progress (flat_map line_events lines) with
  | Some p => p
  | None => progress_var d
  end
  = progress_var (fold_left on_line lines d).
Proof.
  revert d. induction lines as [|line lines IH]; intros d; simpl;
    [reflexivity|].
  rewrite last_progress_app, <- IH.
  destruct (last_progress (flat_map line_events lines)) as [p|];
    [reflexivity|].
  unfold line_events, on_line.
  now destruct (extract line) as [[[q|] []]|].
Qed.

(** X16.  When the selected quality is in [formats_data]: after exit
    status 0 the last progress value handed over is 100, whatever the
    lines said; after any other end of the process it is the percent
    of the last download-progress line, or 0 when there was none, as
    folding [on_line] over the lines from 0 gives it. *)
Theorem download_thread_last_progress (output_path : string) (a : app)
  (format_info : entry) (lines : list text) (s : status) :
  dict_get (quality_var a) (formats_data a) = Some format_info ->
  last_progress (download_thread_body output_path a (Exits lines 0))
  = Some 100%Q
  /\ (forall returncode, returncode <> 0 ->
      last_progress
        (download_thread_body output_path a (Exits lines returncode))
      = Some (progress_var
                (fold_left on_line lines
                   {| progress_var := 0%Q; status_var := s |})))
  /\ (forall text,
      last_progress (download_thread_body output_path a (Raises lines text))
      = Some (progress_var
                (fold_left on_line lines
                   {| progress_var := 0%Q; status_var := s |}))).
Proof.
  intros G. unfold download_thread_body. rewrite G.
  pose proof (last_progress_lines lines
                {| progress_var := 0%Q; status_var := s |}) as L.
  cbn [progress_var] in L.
  split; [|split].
  - change (popen ?c :: ?t) with ([popen c] ++ t)%list.
    rewrite !last_progress_app. reflexivity.
  - intros rc N. destruct (Z.eqb_spec rc 0) as [->|_]; [congruence|].
    rewrite <- L.
    change (popen ?c :: ?t) with ([popen c] ++ t)%list.
    rewrite !last_progress_app. cbn.
    now destruct (last_progress (flat_map line_events lines)).
  - intros t. rewrite <- L.
    change (popen ?c :: ?t) with ([popen c] ++ t)%list.
    rewrite !last_progress_app. cbn.
    now destruct (last_progress (flat_map line_events lines)).
Qed.

Lemma download_thread_last_progress_witness :
  last_progress
    (download_thread_body "Videos/%(title)s.%(ext)s" busy
       (Exits [progress_line; merger_line] 1))
  = Some 45.3%Q.
Proof.
  destruct (download_thread_last_progress "Videos/%(title)s.%(ext)s" busy
              (Single combined_1080) [progress_line; merger_line]
              StartingDownload eq_refl) as (_ & F & _).
  rewrite (F 1); [|discriminate]. vm_compute. reflexivity.
Defined.

End SessionFacts.
